(** * A constant-product swap registry: Token, LiquidityPool, SwapToken

    Shallow embedding of [my-sc/assembly/contracts/main.ts].

    - A [u64] is a [Z] in the range [0, 2^64); every [+], [-] and [*] of the
      source is followed by its reduction modulo [2^64], and the unsigned
      division stops the call when the divisor is zero.
    - [Token] objects live in an object store and are shared by reference:
      the registry's [tokens] map and every [LiquidityPool] hold references
      to them, so a balance written through one path is seen through all.
    - [Map#get] of an absent key stops the call ("Key does not exist"); a
      reference it returns is an object, so the [!x] and [x ? _ : _] tests
      that follow it in the source always take the branch of a present
      reference.
    - [generateEvent] appends its message to the event sink of the store. *)

From stdpp Require Import gmap strings list fin_maps pretty.
From Stdlib Require Import ZArith Lia.

Local Open Scope Z_scope.

(** ** Unsigned 64-bit arithmetic *)

Module U64.

Definition modulus : Z := 2 ^ 64.

Definition wrap (z : Z) : Z := z mod modulus.

Definition in_range (z : Z) : Prop := 0 <= z < modulus.

Definition add (x y : Z) : Z := wrap (x + y).

Definition sub (x y : Z) : Z := wrap (x - y).

Definition mul (x y : Z) : Z := wrap (x * y).

End U64.

(** Outcome of a call: it returns, or the execution is stopped. *)
Inductive outcome (A : Type) : Type :=
  | Returns (a : A)
  | Trap.

Arguments Returns {A} a.
Arguments Trap {A}.

#[global] Instance outcome_bind : MBind outcome := fun A B k m =>
  match m with
  | Returns a => k a
  | Trap => Trap
  end.

(** [a / b] on [u64]: a zero divisor stops the execution; otherwise the
    quotient, which for operands that are not negative is the one rounded
    towards zero (see [div_u_truncates]). *)
Definition div_u (x y : Z) : outcome Z :=
  if y =? 0 then Trap else Returns (x / y).

(** ** Object store *)

(** A reference to a [Token] object. *)
Definition ref : Type := nat.

Record Token : Type := mkToken {
  name : string;
  balance : Z
}.

(** [new Token(name)]: the balance starts at 0. *)
Definition newToken (n : string) : Token := mkToken n 0.

Record Store : Type := mkStore {
  objects : list Token;
  events : list string
}.

Definition empty_store : Store := mkStore [] [].

(** The object behind a reference.  References are only created by
    [alloc], so the default is never read in a well-formed store
    (see [wf_world]). *)
Definition deref (st : Store) (r : ref) : Token :=
  default (newToken "") (objects st !! r).

Definition alloc (t : Token) (st : Store) : ref * Store :=
  (length (objects st), mkStore (objects st ++ [t]) (events st)).

(** [r.balance = v] *)
Definition set_balance (r : ref) (v : Z) (st : Store) : Store :=
  mkStore (<[r := mkToken (name (deref st r)) v]> (objects st)) (events st).

(** [r.balance += v] *)
Definition credit (r : ref) (v : Z) (st : Store) : Store :=
  set_balance r (U64.add (balance (deref st r)) v) st.

(** [r.balance -= v] *)
Definition debit (r : ref) (v : Z) (st : Store) : Store :=
  set_balance r (U64.sub (balance (deref st r)) v) st.

Definition generateEvent (msg : string) (st : Store) : Store :=
  mkStore (objects st) (events st ++ [msg]).

(** ** LiquidityPool *)

Record LiquidityPool : Type := mkPool {
  tokenA : ref;
  tokenB : ref;
  reserveA : Z;
  reserveB : Z
}.

Module Pool.

Definition calculatePrice (this : LiquidityPool) (st : Store) : outcome Z :=
  if reserveB this =? 0 then Returns 0
  else div_u (U64.mul (reserveA this) (balance (deref st (tokenB this))))
             (reserveB this).

Definition addLiquidity (this : LiquidityPool) (amountA amountB : Z)
    (st : Store) : LiquidityPool * Store :=
  let st1 := credit (tokenA this) amountA st in
  let st2 := credit (tokenB this) amountB st1 in
  let this1 := mkPool (tokenA this) (tokenB this)
                 (U64.add (reserveA this) amountA) (reserveB this) in
  let this2 := mkPool (tokenA this1) (tokenB this1)
                 (reserveA this1) (U64.add (reserveB this1) amountB) in
  (this2, st2).

Definition calculateSwapAmountOut (this : LiquidityPool)
    (fromToken toToken : ref) (amountIn : Z) (st : Store) : outcome Z :=
  let amountInWithFee := U64.mul amountIn 997 in
  let numerator := U64.mul amountInWithFee (reserveB this) in
  let denominator :=
    U64.add (U64.mul (balance (deref st fromToken)) 1000) amountInWithFee in
  div_u numerator denominator.

Definition swap_message (amount : Z) (fromName : string) (amountOut : Z)
    (toName : string) : string :=
  "Swapped " +:+ pretty amount +:+ " " +:+ fromName +:+ " for "
    +:+ pretty amountOut +:+ " " +:+ toName.

Definition swapTokens (this : LiquidityPool) (fromToken toToken : ref)
    (amount : Z) (st : Store) : outcome (LiquidityPool * Store) :=
  if balance (deref st fromToken) <? amount then Returns (this, st)
  else
    amountOut ← calculateSwapAmountOut this fromToken toToken amount st;
    if amountOut =? 0 then Returns (this, st)
    else
      let st1 := debit fromToken amount st in
      let st2 := credit toToken amountOut st1 in
      let this1 := mkPool (tokenA this) (tokenB this)
                     (U64.add (reserveA this) amount) (reserveB this) in
      let this2 := mkPool (tokenA this1) (tokenB this1)
                     (reserveA this1) (U64.sub (reserveB this1) amountOut) in
      Returns (this2,
               generateEvent
                 (swap_message amount (name (deref st2 fromToken))
                    amountOut (name (deref st2 toToken))) st2).

End Pool.

(** ** SwapToken: the registry *)

Record SwapToken : Type := mkSwapToken {
  tokens : gmap string ref;
  liquidityPools : gmap string LiquidityPool
}.

(** The whole state: the registry and the store its references point into.
    A [LiquidityPool] object is only ever reachable through the one map
    entry it was stored under, so it is kept by value in that entry. *)
Record World : Type := mkWorld {
  swapSystem : SwapToken;
  store : Store
}.

Definition pool_key (tokenAName tokenBName : string) : string :=
  tokenAName +:+ "-" +:+ tokenBName.

(** [m.get(k)]: the value stored under the key; an absent key stops the
    call. *)
Definition map_get {V : Type} (m : gmap string V) (k : string) : outcome V :=
  match m !! k with
  | Some v => Returns v
  | None => Trap
  end.

Module Registry.

(** [new SwapToken()] *)
Definition init : World := mkWorld (mkSwapToken ∅ ∅) empty_store.

Definition addToken (n : string) (w : World) : World :=
  let '(token, st) := alloc (newToken n) (store w) in
  mkWorld (mkSwapToken (<[n := token]> (tokens (swapSystem w)))
                       (liquidityPools (swapSystem w))) st.

Definition addLiquidityPool (tokenAName tokenBName : string)
    (reserveA reserveB : Z) (w : World) : outcome World :=
  tokenA ← map_get (tokens (swapSystem w)) tokenAName;
  tokenB ← map_get (tokens (swapSystem w)) tokenBName;
  let liquidityPool := mkPool tokenA tokenB reserveA reserveB in
  Returns (mkWorld (mkSwapToken (tokens (swapSystem w))
                      (<[pool_key tokenAName tokenBName := liquidityPool]>
                         (liquidityPools (swapSystem w))))
                   (store w)).

Definition getTokenBalance (tokenName : string) (w : World) : outcome Z :=
  token ← map_get (tokens (swapSystem w)) tokenName;
  Returns (balance (deref (store w) token)).

Definition calculatePrice (tokenAName tokenBName : string) (w : World)
    : outcome Z :=
  liquidityPool ← map_get (liquidityPools (swapSystem w))
                    (pool_key tokenAName tokenBName);
  Pool.calculatePrice liquidityPool (store w).

Definition addLiquidity (tokenAName tokenBName : string)
    (amountA amountB : Z) (w : World) : outcome World :=
  liquidityPool ← map_get (liquidityPools (swapSystem w))
                    (pool_key tokenAName tokenBName);
  let r := Pool.addLiquidity liquidityPool amountA amountB (store w) in
  Returns (mkWorld (mkSwapToken (tokens (swapSystem w))
                      (<[pool_key tokenAName tokenBName := r.1]>
                         (liquidityPools (swapSystem w))))
                   r.2).

Definition swapTheToken (tokenAName tokenBName fromTokenName toTokenName : string)
    (amount : Z) (w : World) : outcome World :=
  liquidityPool ← map_get (liquidityPools (swapSystem w))
                    (pool_key tokenAName tokenBName);
  fromToken ← map_get (tokens (swapSystem w)) fromTokenName;
  toToken ← map_get (tokens (swapSystem w)) toTokenName;
  r ← Pool.swapTokens liquidityPool fromToken toToken amount (store w);
  Returns (mkWorld (mkSwapToken (tokens (swapSystem w))
                      (<[pool_key tokenAName tokenBName := r.1]>
                         (liquidityPools (swapSystem w))))
                   r.2).

End Registry.

(** ** Sequences of registry calls *)

Inductive Call : Type :=
  | AddToken (n : string)
  | AddLiquidityPool (tokenAName tokenBName : string) (reserveA reserveB : Z)
  | AddLiquidity (tokenAName tokenBName : string) (amountA amountB : Z)
  | SwapTheToken (tokenAName tokenBName fromTokenName toTokenName : string)
      (amount : Z)
  | GetTokenBalance (tokenName : string)
  | CalculatePrice (tokenAName tokenBName : string).

(** The [u64] arguments of a call are in range. *)
Definition call_ok (c : Call) : Prop :=
  match c with
  | AddLiquidityPool _ _ x y | AddLiquidity _ _ x y =>
      U64.in_range x /\ U64.in_range y
  | SwapTheToken _ _ _ _ x => U64.in_range x
  | AddToken _ | GetTokenBalance _ | CalculatePrice _ _ => True
  end.

(** The world a call leaves behind: the one it returns, or the one it
    started from when it is stopped. *)
Definition settle (w : World) (o : outcome World) : World :=
  match o with
  | Returns w' => w'
  | Trap => w
  end.

(** The world after a call.  A stopped call has written nothing: every map
    lookup of a call and the only division of a mutating call, in
    [swapTokens], come before all of its writes; the two queries never
    write. *)
Definition exec (c : Call) (w : World) : World :=
  match c with
  | AddToken n => Registry.addToken n w
  | AddLiquidityPool a b x y => settle w (Registry.addLiquidityPool a b x y w)
  | AddLiquidity a b x y => settle w (Registry.addLiquidity a b x y w)
  | SwapTheToken a b f t x => settle w (Registry.swapTheToken a b f t x w)
  | GetTokenBalance _ | CalculatePrice _ _ => w
  end.

Definition run (cs : list Call) (w : World) : World :=
  foldl (fun w c => exec c w) w cs.

(** ** Scenarios of the test-suite *)

(** The fixture: tokens A and B and the pool A-B with reserves (100, 200). *)
Definition fixture : World :=
  run [AddToken "A"; AddToken "B"; AddLiquidityPool "A" "B" 100 200] Registry.init.

(** [swapSystem.tokens.get(n).balance = v], the direct field write that the
    tests use to fund a registered token. *)
Definition fund (n : string) (v : Z) (w : World) : World :=
  match tokens (swapSystem w) !! n with
  | Some token => mkWorld (swapSystem w) (set_balance token v (store w))
  | None => w
  end.

Definition funded : World := fund "B" 400 (fund "A" 200 fixture).

(** Every reference held by the registry or by a pool points into the store. *)
Definition wf_world (w : World) : Prop :=
  (forall n r, tokens (swapSystem w) !! n = Some r ->
     (r < length (objects (store w)))%nat) /\
  (forall k p, liquidityPools (swapSystem w) !! k = Some p ->
     (tokenA p < length (objects (store w)))%nat /\
     (tokenB p < length (objects (store w)))%nat).

Definition balances_in_range (st : Store) : Prop :=
  forall r t, objects st !! r = Some t -> U64.in_range (balance t).

(** Every stored [u64] is in range. *)
Definition u64_world (w : World) : Prop :=
  balances_in_range (store w) /\
  (forall k p, liquidityPools (swapSystem w) !! k = Some p ->
     U64.in_range (reserveA p) /\ U64.in_range (reserveB p)).

(** A session from the empty registry that funds both tokens through the
    pool and then swaps. *)
Definition session : list Call :=
  [AddToken "A"; AddToken "B"; AddLiquidityPool "A" "B" 100 200;
   AddLiquidity "A" "B" 200 400; SwapTheToken "A" "B" "A" "B" 100;
   GetTokenBalance "A"; CalculatePrice "A" "B"].

(** ** Worlds with large amounts *)

(** Tokens A and B, both empty, and the pool A-B with reserves (100, 2). *)
Definition thin : World :=
  run [AddToken "A"; AddToken "B"; AddLiquidityPool "A" "B" 100 2] Registry.init.

(** The pool A-B created with reserves (2^32, 0), then 2^32 of B deposited. *)
Definition deep : World :=
  run [AddToken "A"; AddToken "B"; AddLiquidityPool "A" "B" (2 ^ 32) 0;
       AddLiquidity "A" "B" 0 (2 ^ 32)] Registry.init.

(** ** Further invariants *)

(** Every entry of the token map points to the object created under that
    name. *)
Definition named_world (w : World) : Prop :=
  forall n r, tokens (swapSystem w) !! n = Some r -> name (deref (store w) r) = n.

Definition consistent (w : World) : Prop :=
  wf_world w /\ u64_world w /\ named_world w.

(** [w'] keeps what [w] has: every name and pool key still resolves, every
    object is still there under its name, every event is still in the sink. *)
Definition keeps (w w' : World) : Prop :=
  (forall n, is_Some (tokens (swapSystem w) !! n) ->
     is_Some (tokens (swapSystem w') !! n)) /\
  (forall k, is_Some (liquidityPools (swapSystem w) !! k) ->
     is_Some (liquidityPools (swapSystem w') !! k)) /\
  (forall r, (r < length (objects (store w)))%nat ->
     (r < length (objects (store w')))%nat /\
     name (deref (store w') r) = name (deref (store w) r)) /\
  events (store w) `prefix_of` events (store w').

(** The name holds no ["-"], the separator of [pool_key]. *)
Fixpoint dash_free (s : string) : bool :=
  match s with
  | EmptyString => true
  | String c s' => negb (String.eqb (String c EmptyString) "-") && dash_free s'
  end.

(** Tokens A and B funded through the pool A-B: balances (200, 400),
    reserves (300, 600). *)
Definition warm : World :=
  run [AddToken "A"; AddToken "B"; AddLiquidityPool "A" "B" 100 200;
       AddLiquidity "A" "B" 200 400] Registry.init.

(** ** Entry points *)

(** The exported functions take their arguments from a buffer through the
    [Args] reader of the host library and ask the host whether the caller
    may write.  Both are outside this repository: the reader is a parameter
    ([nextString] and [nextU64] give the next value and the rest of the
    buffer, or nothing when the value is missing or invalid) and the answer
    of [callerHasWriteAccess] is an argument of each guarded function.
    [expect] stops the call on a missing value.  The registry [swapSystem]
    of the module is the [World] passed along. *)

Definition expect {A : Type} (r : option A) : outcome A :=
  match r with
  | Some a => Returns a
  | None => Trap
  end.

(** [stringToBytes]: the bytes of the string. *)
Definition stringToBytes (s : string) : list Byte.byte := String.list_byte_of_string s.

(** [generateEvent] on the store of a world. *)
Definition emit (msg : string) (w : World) : World :=
  mkWorld (swapSystem w) (generateEvent msg (store w)).

Module Entry.

Section Host.

Variable Args : Type.
Variable nextString : Args -> option (string * Args).
Variable nextU64 : Args -> option (Z * Args).

Definition constructor (callerHasWriteAccess : bool) (binaryArgs : Args)
    (w : World) : outcome (list Byte.byte * World) :=
  if negb callerHasWriteAccess then Returns ([], w)
  else
    r ← expect (nextString binaryArgs);
    let w0 := emit ("Constructor called with name " +:+ r.1) w in
    let w1 := Registry.addToken "TokenA" w0 in
    let w2 := Registry.addToken "TokenB" w1 in
    w3 ← Registry.addLiquidityPool "TokenA" "TokenB" 100 200 w2;
    Returns ([], w3).

Definition getTokenBalance (binaryArgs : Args) (w : World)
    : outcome (list Byte.byte * World) :=
  tokenName ← expect (nextString binaryArgs);
  balance ← Registry.getTokenBalance tokenName.1 w;
  Returns (stringToBytes (pretty balance), w).

Definition calculatePrice (binaryArgs : Args) (w : World)
    : outcome (list Byte.byte * World) :=
  tokenAName ← expect (nextString binaryArgs);
  tokenBName ← expect (nextString tokenAName.2);
  price ← Registry.calculatePrice tokenAName.1 tokenBName.1 w;
  Returns (stringToBytes (pretty price), w).

Definition addLiquidity (callerHasWriteAccess : bool) (binaryArgs : Args)
    (w : World) : outcome (list Byte.byte * World) :=
  if negb callerHasWriteAccess then Returns ([], w)
  else
    tokenAName ← expect (nextString binaryArgs);
    tokenBName ← expect (nextString tokenAName.2);
    amountA ← expect (nextU64 tokenBName.2);
    amountB ← expect (nextU64 amountA.2);
    w' ← Registry.addLiquidity tokenAName.1 tokenBName.1 amountA.1 amountB.1 w;
    Returns ([], w').

Definition swapTokens (callerHasWriteAccess : bool) (binaryArgs : Args)
    (w : World) : outcome (list Byte.byte * World) :=
  if negb callerHasWriteAccess then Returns ([], w)
  else
    fromTokenName ← expect (nextString binaryArgs);
    toTokenName ← expect (nextString fromTokenName.2);
    tokenAName ← expect (nextString toTokenName.2);
    tokenBName ← expect (nextString tokenAName.2);
    amount ← expect (nextU64 tokenBName.2);
    w' ← Registry.swapTheToken tokenAName.1 tokenBName.1
           fromTokenName.1 toTokenName.1 amount.1 w;
    Returns ([], w').

Definition event (w : World) : outcome (list Byte.byte * World) :=
  let message := "I'm an event!" in
  Returns (stringToBytes message, emit message w).

(** The exported functions, as a caller names them. *)
Inductive Export : Type :=
  | ExConstructor
  | ExGetTokenBalance
  | ExCalculatePrice
  | ExAddLiquidity
  | ExSwapTokens
  | ExEvent.

Definition invoke (e : Export) (callerHasWriteAccess : bool) (binaryArgs : Args)
    (w : World) : outcome (list Byte.byte * World) :=
  match e with
  | ExConstructor => constructor callerHasWriteAccess binaryArgs w
  | ExGetTokenBalance => getTokenBalance binaryArgs w
  | ExCalculatePrice => calculatePrice binaryArgs w
  | ExAddLiquidity => addLiquidity callerHasWriteAccess binaryArgs w
  | ExSwapTokens => swapTokens callerHasWriteAccess binaryArgs w
  | ExEvent => event w
  end.

(** The world after an invocation.  A stopped invocation has written
    nothing: in every function but the constructor the [expect]s, the map
    lookups and the division of the swap come before the writes, and the
    lookups of the constructor's addLiquidityPool are of the two names it
    has just added. *)
Definition after (e : Export) (callerHasWriteAccess : bool) (binaryArgs : Args)
    (w : World) : World :=
  match invoke e callerHasWriteAccess binaryArgs w with
  | Returns r => r.2
  | Trap => w
  end.

Definition serve (requests : list (Export * bool * Args)) (w : World) : World :=
  foldl (fun w q => after q.1.1 q.1.2 q.2 w) w requests.

End Host.

End Entry.

(** A reader over arguments already split into values, to run the entry
    points on examples. *)
Module Reader.

Inductive Arg : Type :=
  | Str (s : string)
  | U64 (n : Z).

Definition nextString (a : list Arg) : option (string * list Arg) :=
  match a with
  | Str s :: rest => Some (s, rest)
  | _ => None
  end.

Definition nextU64 (a : list Arg) : option (Z * list Arg) :=
  match a with
  | U64 n :: rest =>
      if (0 <=? n) && (n <? U64.modulus) then Some (n, rest) else None
  | _ => None
  end.

End Reader.

(** A deployment followed by a deposit, a swap and a swap attempted without
    write access, as argument buffers of [Reader]. *)
Definition requests : list (Entry.Export * bool * list Reader.Arg) :=
  [(Entry.ExConstructor, true, [Reader.Str "deployer"]);
   (Entry.ExAddLiquidity, true,
    [Reader.Str "TokenA"; Reader.Str "TokenB"; Reader.U64 200; Reader.U64 400]);
   (Entry.ExSwapTokens, true,
    [Reader.Str "TokenA"; Reader.Str "TokenB"; Reader.Str "TokenA";
     Reader.Str "TokenB"; Reader.U64 100]);
   (Entry.ExSwapTokens, false,
    [Reader.Str "TokenB"; Reader.Str "TokenA"; Reader.Str "TokenA";
     Reader.Str "TokenB"; Reader.U64 50])].

(** The world after the deployment and the deposit of [requests]. *)
Definition deployed : World :=
  Entry.serve (list Reader.Arg) Reader.nextString Reader.nextU64
    (take 2 requests) Registry.init.

(** * Properties *)

(** ** Arithmetic *)

Section Arithmetic.

Lemma modulus_pos : 0 < U64.modulus.
Proof. reflexivity. Qed.

Lemma wrap_in_range z : U64.in_range (U64.wrap z).
Proof. apply Z.mod_pos_bound, modulus_pos. Qed.

Lemma wrap_small z : U64.in_range z -> U64.wrap z = z.
Proof. intros H. apply Z.mod_small, H. Qed.

Lemma add_in_range x y : U64.in_range (U64.add x y).
Proof. apply wrap_in_range. Qed.

Lemma sub_in_range x y : U64.in_range (U64.sub x y).
Proof. apply wrap_in_range. Qed.

Lemma mul_in_range x y : U64.in_range (U64.mul x y).
Proof. apply wrap_in_range. Qed.

Lemma add_add x y z : U64.add (U64.add x y) z = U64.add x (y + z).
Proof.
  unfold U64.add, U64.wrap.
  rewrite Zplus_mod_idemp_l. f_equal. lia.
Qed.

Lemma add_wrap_r x y : U64.add x (U64.wrap y) = U64.add x y.
Proof. unfold U64.add, U64.wrap. apply Zplus_mod_idemp_r. Qed.

Lemma add_exact x y :
  0 <= x -> 0 <= y -> x + y < U64.modulus -> U64.add x y = x + y.
Proof. intros. apply wrap_small. unfold U64.in_range. lia. Qed.

Lemma mul_exact x y :
  0 <= x -> 0 <= y -> x * y < U64.modulus -> U64.mul x y = x * y.
Proof. intros. apply wrap_small. unfold U64.in_range. nia. Qed.

(** A guarded subtraction never wraps. *)
Lemma sub_exact x y :
  U64.in_range x -> 0 <= y -> ~ x < y -> U64.sub x y = x - y.
Proof. unfold U64.in_range. intros. apply wrap_small. unfold U64.in_range. lia. Qed.

Lemma div_u_returns x y : y <> 0 -> div_u x y = Returns (x / y).
Proof. intros H. unfold div_u. destruct (Z.eqb_spec y 0); [contradiction | reflexivity]. Qed.

Lemma div_u_zero x : div_u x 0 = Trap.
Proof. reflexivity. Qed.

Lemma div_u_truncates x y :
  U64.in_range x -> U64.in_range y -> y <> 0 -> div_u x y = Returns (x ÷ y).
Proof.
  unfold U64.in_range. intros Hx Hy Hnz.
  rewrite div_u_returns by assumption.
  rewrite Z.quot_div_nonneg by lia. reflexivity.
Qed.

(** Cross-multiplication for quotients rounded down. *)
Lemma div_le_cross n1 d1 n2 d2 :
  0 < d1 -> 0 < d2 -> 0 <= n1 -> n1 * d2 <= n2 * d1 -> n1 / d1 <= n2 / d2.
Proof.
  intros Hd1 Hd2 Hn1 Hcross.
  apply Z.div_le_lower_bound; [assumption |].
  assert (Hq : d1 * (n1 / d1) <= n1) by (apply Z.mul_div_le; assumption).
  assert (Hq0 : 0 <= n1 / d1) by (apply Z.div_pos; assumption).
  nia.
Qed.

End Arithmetic.

(** ** The object store *)

Section StoreFacts.

Implicit Types (st : Store) (r : ref) (v : Z).

Lemma events_set_balance r v st : events (set_balance r v st) = events st.
Proof. reflexivity. Qed.

Lemma length_set_balance r v st :
  length (objects (set_balance r v st)) = length (objects st).
Proof. apply length_insert. Qed.

Lemma deref_set_balance_ne r r' v st :
  r <> r' -> deref (set_balance r v st) r' = deref st r'.
Proof.
  intros Hne. unfold deref, set_balance. simpl.
  rewrite list_lookup_insert_ne; [reflexivity | assumption].
Qed.

Lemma deref_set_balance_eq r v st :
  (r < length (objects st))%nat ->
  deref (set_balance r v st) r = mkToken (name (deref st r)) v.
Proof.
  intros Hlt. unfold deref at 1. unfold set_balance. simpl.
  rewrite list_lookup_insert_eq; [reflexivity | assumption].
Qed.

Lemma set_balance_dangling r v st :
  (length (objects st) <= r)%nat -> set_balance r v st = st.
Proof.
  intros Hge. unfold set_balance. rewrite list_insert_ge by assumption.
  destruct st; reflexivity.
Qed.

Lemma deref_dangling r st :
  (length (objects st) <= r)%nat -> deref st r = newToken "".
Proof.
  intros Hge. unfold deref. rewrite lookup_ge_None_2; [reflexivity | assumption].
Qed.

Lemma name_deref_set_balance r r' v st :
  name (deref (set_balance r v st) r') = name (deref st r').
Proof.
  destruct (decide (r = r')) as [<- | Hne].
  - destruct (decide (r < length (objects st))%nat) as [Hlt | Hge].
    + rewrite deref_set_balance_eq by assumption. reflexivity.
    + rewrite set_balance_dangling by lia. reflexivity.
  - rewrite deref_set_balance_ne by assumption. reflexivity.
Qed.

(** A token whose balance is not zero is allocated. *)
Lemma balance_nonzero_allocated r st :
  balance (deref st r) <> 0 -> (r < length (objects st))%nat.
Proof.
  intros Hb. destruct (decide (r < length (objects st))%nat) as [Hlt | Hge];
    [assumption |].
  rewrite deref_dangling in Hb by lia. contradiction Hb. reflexivity.
Qed.

Lemma set_balance_twice r u v st :
  set_balance r v (set_balance r u st) = set_balance r v st.
Proof.
  unfold set_balance at 1 3. rewrite name_deref_set_balance. simpl.
  rewrite list_insert_insert_eq. reflexivity.
Qed.

Lemma set_balance_swap r1 r2 v1 v2 st :
  r1 <> r2 ->
  set_balance r1 v1 (set_balance r2 v2 st)
  = set_balance r2 v2 (set_balance r1 v1 st).
Proof.
  intros Hne. unfold set_balance at 1 3. rewrite !name_deref_set_balance.
  simpl. rewrite list_insert_insert_ne by assumption. reflexivity.
Qed.

Lemma credit_credit r u v st :
  credit r v (credit r u st) = credit r (u + v) st.
Proof.
  unfold credit. rewrite set_balance_twice.
  destruct (decide (r < length (objects st))%nat) as [Hlt | Hge].
  - rewrite deref_set_balance_eq by assumption. simpl.
    rewrite add_add. reflexivity.
  - rewrite (set_balance_dangling r _ st) by lia.
    rewrite !set_balance_dangling by lia. reflexivity.
Qed.

Lemma credit_swap r1 r2 v1 v2 st :
  credit r1 v1 (credit r2 v2 st) = credit r2 v2 (credit r1 v1 st).
Proof.
  destruct (decide (r1 = r2)) as [-> | Hne].
  - rewrite !credit_credit. f_equal. lia.
  - unfold credit. rewrite !deref_set_balance_ne by congruence.
    apply set_balance_swap. assumption.
Qed.

Lemma addLiquidity_store this x y st :
  (Pool.addLiquidity this x y st).2 = credit (tokenB this) y (credit (tokenA this) x st).
Proof. reflexivity. Qed.

Lemma addLiquidity_pool this x y st :
  (Pool.addLiquidity this x y st).1
  = mkPool (tokenA this) (tokenB this)
      (U64.add (reserveA this) x) (U64.add (reserveB this) y).
Proof. reflexivity. Qed.

End StoreFacts.

(** ** Reading and writing balances *)

Section BalanceFacts.

Implicit Types (st : Store) (r : ref) (v : Z).

Lemma deref_generateEvent msg st r : deref (generateEvent msg st) r = deref st r.
Proof. reflexivity. Qed.

Lemma balance_credit_eq r v st :
  (r < length (objects st))%nat ->
  balance (deref (credit r v st) r) = U64.add (balance (deref st r)) v.
Proof. intros Hlt. unfold credit. rewrite deref_set_balance_eq by assumption. reflexivity. Qed.

Lemma balance_debit_eq r v st :
  (r < length (objects st))%nat ->
  balance (deref (debit r v st) r) = U64.sub (balance (deref st r)) v.
Proof. intros Hlt. unfold debit. rewrite deref_set_balance_eq by assumption. reflexivity. Qed.

Lemma deref_credit_ne r r' v st : r <> r' -> deref (credit r v st) r' = deref st r'.
Proof. apply deref_set_balance_ne. Qed.

Lemma deref_debit_ne r r' v st : r <> r' -> deref (debit r v st) r' = deref st r'.
Proof. apply deref_set_balance_ne. Qed.

Lemma length_credit r v st : length (objects (credit r v st)) = length (objects st).
Proof. apply length_set_balance. Qed.

Lemma length_debit r v st : length (objects (debit r v st)) = length (objects st).
Proof. apply length_set_balance. Qed.

Lemma map_get_Some {V : Type} (m : gmap string V) (k : string) (x : V) :
  m !! k = Some x -> map_get m k = Returns x.
Proof. intros H. unfold map_get. rewrite H. reflexivity. Qed.

Lemma map_get_None {V : Type} (m : gmap string V) (k : string) :
  m !! k = None -> map_get m k = Trap.
Proof. intros H. unfold map_get. rewrite H. reflexivity. Qed.

Lemma getTokenBalance_resolved w n r :
  tokens (swapSystem w) !! n = Some r ->
  Registry.getTokenBalance n w = Returns (balance (deref (store w) r)).
Proof.
  intros Hn. unfold Registry.getTokenBalance.
  rewrite (map_get_Some _ _ _ Hn). reflexivity.
Qed.

Lemma getTokenBalance_unresolved w n :
  tokens (swapSystem w) !! n = None -> Registry.getTokenBalance n w = Trap.
Proof.
  intros Hn. unfold Registry.getTokenBalance.
  rewrite (map_get_None _ _ Hn). reflexivity.
Qed.

(** A balance the registry returns is the balance of the object registered
    under the name. *)
Lemma getTokenBalance_returns n w v :
  Registry.getTokenBalance n w = Returns v ->
  exists r, tokens (swapSystem w) !! n = Some r /\ balance (deref (store w) r) = v.
Proof.
  destruct (tokens (swapSystem w) !! n) as [r |] eqn:Hn.
  - rewrite (getTokenBalance_resolved w n r Hn). intros Hv. injection Hv as <-.
    exists r. split; reflexivity.
  - rewrite (getTokenBalance_unresolved w n Hn). discriminate.
Qed.

End BalanceFacts.

(** ** The scenarios, evaluated *)

Example fixture_balances :
  Registry.getTokenBalance "A" fixture = Returns 0 /\
  Registry.getTokenBalance "B" fixture = Returns 0.
Proof. split; reflexivity. Qed.

Example fixture_pool :
  liquidityPools (swapSystem fixture) !! "A-B" = Some (mkPool 0%nat 1%nat 100 200) /\
  liquidityPools (swapSystem fixture) !! "B-A" = None.
Proof. split; reflexivity. Qed.

Example liquidity_scenario :
  exists w,
    Registry.addLiquidity "A" "B" 50 100 fixture = Returns w /\
    Registry.getTokenBalance "A" w = Returns 50 /\
    Registry.getTokenBalance "B" w = Returns 100 /\
    liquidityPools (swapSystem w) !! "A-B" = Some (mkPool 0%nat 1%nat 150 300).
Proof. eexists. repeat split. Qed.

Example swap_event :
  exists w', Registry.swapTheToken "A" "B" "A" "B" 100 funded = Returns w' /\
             events (store w') = ["Swapped 100 A for 66 B"].
Proof. eexists. split; reflexivity. Qed.

Example insufficient_balance_scenario :
  let w := fund "B" 200 (fund "A" 50 fixture) in
  Registry.swapTheToken "A" "B" "A" "B" 100 w = Returns w.
Proof. reflexivity. Qed.

(** A token added again under the same name is a new object: the pool keeps
    the one it was built with. *)
Example readded_token_is_fresh :
  let w := Registry.addToken "A" (exec (AddLiquidity "A" "B" 50 100) fixture) in
  Registry.getTokenBalance "A" w = Returns 0 /\
  balance (deref (store w) 0%nat) = 50 /\
  tokens (swapSystem w) !! "A" = Some 2%nat.
Proof. repeat split. Qed.

(** ** The swap scenario *)

(** C1.  In every world where the registry reads 200 for token A and 400 for
    token B and holds under key "A-B" a pool with reserves (100, 200), the
    call swapTheToken("A","B","A","B",100) computes
    amountOut = (100*997*200) / (200*1000 + 100*997) = 66 and returns with
    tokenA.balance = 100, tokenB.balance = 466, reserveA = 200 and
    reserveB = 134. *)
Theorem swap_scenario (w : World) (p : LiquidityPool) :
  Registry.getTokenBalance "A" w = Returns 200 ->
  Registry.getTokenBalance "B" w = Returns 400 ->
  liquidityPools (swapSystem w) !! "A-B" = Some p ->
  reserveA p = 100 ->
  reserveB p = 200 ->
  (100 * 997 * 200) / (200 * 1000 + 100 * 997) = 66 /\
  (exists a b,
     tokens (swapSystem w) !! "A" = Some a /\
     tokens (swapSystem w) !! "B" = Some b /\
     Pool.calculateSwapAmountOut p a b 100 (store w) = Returns 66) /\
  (exists w' p',
     Registry.swapTheToken "A" "B" "A" "B" 100 w = Returns w' /\
     Registry.getTokenBalance "A" w' = Returns 100 /\
     Registry.getTokenBalance "B" w' = Returns 466 /\
     liquidityPools (swapSystem w') !! "A-B" = Some p' /\
     reserveA p' = 200 /\
     reserveB p' = 134).
Proof.
  intros HA HB Hp HrA HrB.
  destruct (getTokenBalance_returns "A" w 200 HA) as (a & Ha & Hba).
  destruct (getTokenBalance_returns "B" w 400 HB) as (b & Hb & Hbb).
  assert (Hla : (a < length (objects (store w)))%nat)
    by (apply balance_nonzero_allocated; rewrite Hba; discriminate).
  assert (Hlb : (b < length (objects (store w)))%nat)
    by (apply balance_nonzero_allocated; rewrite Hbb; discriminate).
  assert (Hab : a <> b) by (intros ->; rewrite Hba in Hbb; discriminate).
  assert (Hout : Pool.calculateSwapAmountOut p a b 100 (store w) = Returns 66).
  { unfold Pool.calculateSwapAmountOut. rewrite Hba, HrB. reflexivity. }
  split; [reflexivity |].
  split; [exists a, b; auto |].
  unfold Registry.swapTheToken.
  change (pool_key "A" "B") with "A-B".
  rewrite (map_get_Some _ _ _ Hp), (map_get_Some _ _ _ Ha), (map_get_Some _ _ _ Hb).
  cbn [mbind outcome_bind].
  unfold Pool.swapTokens. rewrite Hout, Hba. simpl.
  eexists _, _. split; [reflexivity |].
  rewrite (getTokenBalance_resolved _ "A" a) by exact Ha.
  rewrite (getTokenBalance_resolved _ "B" b) by exact Hb.
  cbn [store swapSystem liquidityPools].
  rewrite !deref_generateEvent.
  rewrite (deref_credit_ne b a) by congruence.
  rewrite balance_debit_eq by assumption.
  rewrite balance_credit_eq by (rewrite length_debit; assumption).
  rewrite deref_debit_ne by assumption.
  rewrite Hba, Hbb, HrA, HrB.
  rewrite lookup_insert_eq.
  repeat split; reflexivity.
Qed.

Lemma swap_scenario_witness :
  (100 * 997 * 200) / (200 * 1000 + 100 * 997) = 66 /\
  (exists a b,
     tokens (swapSystem funded) !! "A" = Some a /\
     tokens (swapSystem funded) !! "B" = Some b /\
     Pool.calculateSwapAmountOut (mkPool 0%nat 1%nat 100 200) a b 100 (store funded)
     = Returns 66) /\
  (exists w' p',
     Registry.swapTheToken "A" "B" "A" "B" 100 funded = Returns w' /\
     Registry.getTokenBalance "A" w' = Returns 100 /\
     Registry.getTokenBalance "B" w' = Returns 466 /\
     liquidityPools (swapSystem w') !! "A-B" = Some p' /\
     reserveA p' = 200 /\
     reserveB p' = 134).
Proof.
  apply (swap_scenario funded (mkPool 0%nat 1%nat 100 200)); reflexivity.
Defined.

(** ** The swap formula *)

Section SwapFormula.

Variables (this : LiquidityPool) (st : Store).

Implicit Types (fromToken toToken : ref) (amountIn : Z).

(** The call as the source computes it, when the divisor is not zero. *)
Lemma calculateSwapAmountOut_wrapped fromToken toToken amountIn :
  U64.add (U64.mul (balance (deref st fromToken)) 1000) (U64.mul amountIn 997) <> 0 ->
  Pool.calculateSwapAmountOut this fromToken toToken amountIn st
  = Returns (U64.mul (U64.mul amountIn 997) (reserveB this)
             / U64.add (U64.mul (balance (deref st fromToken)) 1000)
                       (U64.mul amountIn 997)).
Proof. intros Hden. unfold Pool.calculateSwapAmountOut. apply div_u_returns, Hden. Qed.

(** Without overflow the three intermediate values are the exact ones. *)
Lemma calculateSwapAmountOut_exact fromToken toToken amountIn :
  0 <= amountIn ->
  0 <= reserveB this ->
  0 <= balance (deref st fromToken) ->
  amountIn * 997 * reserveB this < U64.modulus ->
  balance (deref st fromToken) * 1000 + amountIn * 997 < U64.modulus ->
  balance (deref st fromToken) * 1000 + amountIn * 997 <> 0 ->
  Pool.calculateSwapAmountOut this fromToken toToken amountIn st
  = Returns (amountIn * 997 * reserveB this
             / (balance (deref st fromToken) * 1000 + amountIn * 997)).
Proof.
  intros Ha Hr Hb Hnum Hden Hnz.
  unfold Pool.calculateSwapAmountOut.
  rewrite (mul_exact amountIn 997) by lia.
  rewrite (mul_exact (amountIn * 997)) by lia.
  rewrite (mul_exact (balance _) 1000) by lia.
  rewrite add_exact by lia.
  apply div_u_returns, Hnz.
Qed.

Lemma calculateSwapAmountOut_zero_divisor fromToken toToken :
  balance (deref st fromToken) = 0 ->
  Pool.calculateSwapAmountOut this fromToken toToken 0 st = Trap.
Proof. intros Hb. unfold Pool.calculateSwapAmountOut. rewrite Hb. reflexivity. Qed.

End SwapFormula.

(** C2, as stated, fails when a product overflows: with reserveB = 2, an
    empty fromToken and amountIn = 2^63, the source returns 0 where the
    exact quotient is 2. *)
Lemma swap_formula_overflow :
  liquidityPools (swapSystem thin) !! "A-B" = Some (mkPool 0%nat 1%nat 100 2) /\
  tokens (swapSystem thin) !! "A" = Some 0%nat /\
  balance (deref (store thin) 0%nat) = 0 /\
  U64.in_range (2 ^ 63) /\
  Pool.calculateSwapAmountOut (mkPool 0%nat 1%nat 100 2) 0%nat 1%nat (2 ^ 63) (store thin)
  = Returns 0 /\
  (2 ^ 63 * 997 * 2) / (0 * 1000 + 2 ^ 63 * 997) = 2.
Proof. repeat split; vm_compute; congruence. Qed.

(** C2, amended.  Whenever the 64-bit divisor is not zero,
    calculateSwapAmountOut returns the quotient, rounded down, of
    amountIn * 997 * reserveB by fromToken.balance * 1000 + amountIn * 997,
    each product and sum reduced modulo 2^64; when neither
    amountIn * 997 * reserveB nor fromToken.balance * 1000 + amountIn * 997
    reaches 2^64, that is the exact quotient.  The reserveB slot is the one
    used, whatever fromToken and toToken are. *)
Theorem calculateSwapAmountOut_formula (this : LiquidityPool) (fromToken toToken : ref)
    (amountIn : Z) (st : Store) :
  U64.in_range amountIn ->
  U64.in_range (reserveB this) ->
  U64.in_range (balance (deref st fromToken)) ->
  U64.add (U64.mul (balance (deref st fromToken)) 1000) (U64.mul amountIn 997) <> 0 ->
  Pool.calculateSwapAmountOut this fromToken toToken amountIn st
  = Returns (U64.mul (U64.mul amountIn 997) (reserveB this)
             / U64.add (U64.mul (balance (deref st fromToken)) 1000)
                       (U64.mul amountIn 997)) /\
  (amountIn * 997 * reserveB this < U64.modulus ->
   balance (deref st fromToken) * 1000 + amountIn * 997 < U64.modulus ->
   Pool.calculateSwapAmountOut this fromToken toToken amountIn st
   = Returns (amountIn * 997 * reserveB this
              / (balance (deref st fromToken) * 1000 + amountIn * 997))).
Proof.
  intros Ha Hr Hb Hden. split.
  - apply calculateSwapAmountOut_wrapped, Hden.
  - intros Hnum Hsum. unfold U64.in_range in *.
    apply calculateSwapAmountOut_exact; try lia.
    intros Hz. apply Hden.
    rewrite (mul_exact amountIn 997), (mul_exact (balance _) 1000), add_exact by lia.
    exact Hz.
Qed.

Lemma calculateSwapAmountOut_formula_witness :
  Pool.calculateSwapAmountOut (mkPool 0%nat 1%nat 100 200) 1%nat 0%nat 100 (store funded)
  = Returns (U64.mul (U64.mul 100 997) 200
             / U64.add (U64.mul (balance (deref (store funded) 1%nat)) 1000)
                       (U64.mul 100 997)) /\
  Pool.calculateSwapAmountOut (mkPool 0%nat 1%nat 100 200) 1%nat 0%nat 100 (store funded)
  = Returns (100 * 997 * 200 / (400 * 1000 + 100 * 997)).
Proof.
  destruct (calculateSwapAmountOut_formula (mkPool 0%nat 1%nat 100 200) 1%nat 0%nat 100
              (store funded)) as [Hwrapped Hexact].
  - vm_compute. split; [discriminate | reflexivity].
  - vm_compute. split; [discriminate | reflexivity].
  - vm_compute. split; [discriminate | reflexivity].
  - vm_compute. discriminate.
  - split; [exact Hwrapped |]. apply Hexact; reflexivity.
Defined.

(** C10.  calculateSwapAmountOut does not depend on toToken, and its result
    is the same in any two pools and stores that agree on amountIn,
    fromToken.balance and reserveB. *)
Theorem calculateSwapAmountOut_ignores_toToken (this this' : LiquidityPool)
    (fromToken fromToken' t1 t2 : ref) (amountIn : Z) (st st' : Store) :
  Pool.calculateSwapAmountOut this fromToken t1 amountIn st
  = Pool.calculateSwapAmountOut this fromToken t2 amountIn st /\
  (reserveB this = reserveB this' ->
   balance (deref st fromToken) = balance (deref st' fromToken') ->
   Pool.calculateSwapAmountOut this fromToken t1 amountIn st
   = Pool.calculateSwapAmountOut this' fromToken' t2 amountIn st').
Proof.
  split; [reflexivity |].
  intros Hr Hb. unfold Pool.calculateSwapAmountOut. rewrite Hr, Hb. reflexivity.
Qed.

Lemma calculateSwapAmountOut_ignores_toToken_witness :
  Pool.calculateSwapAmountOut (mkPool 0%nat 1%nat 100 200) 0%nat 0%nat 100 (store funded)
  = Pool.calculateSwapAmountOut (mkPool 0%nat 1%nat 100 200) 0%nat 1%nat 100 (store funded) /\
  Pool.calculateSwapAmountOut (mkPool 0%nat 1%nat 100 200) 0%nat 0%nat 100 (store funded)
  = Pool.calculateSwapAmountOut (mkPool 1%nat 0%nat 7 200) 1%nat 1%nat 100
      (store (fund "B" 200 fixture)).
Proof.
  destruct (calculateSwapAmountOut_ignores_toToken (mkPool 0%nat 1%nat 100 200)
              (mkPool 1%nat 0%nat 7 200) 0%nat 1%nat 0%nat 1%nat 100
              (store funded) (store (fund "B" 200 fixture))) as [Hto Hsame].
  split; [exact Hto |]. apply Hsame; reflexivity.
Defined.

(** ** Calls that change nothing *)

Section Refusals.

Variable w : World.

Lemma world_eta : mkWorld (mkSwapToken (tokens (swapSystem w)) (liquidityPools (swapSystem w))) (store w) = w.
Proof. destruct w as [[] ?]. reflexivity. Qed.

(** Writing a pool back unchanged leaves the registry as it was. *)
Lemma store_back_same k p :
  liquidityPools (swapSystem w) !! k = Some p ->
  mkWorld (mkSwapToken (tokens (swapSystem w)) (<[k := p]> (liquidityPools (swapSystem w))))
          (store w) = w.
Proof. intros Hk. rewrite insert_id by assumption. apply world_eta. Qed.

Lemma swapTokens_insufficient this fromToken toToken amount st :
  balance (deref st fromToken) < amount ->
  Pool.swapTokens this fromToken toToken amount st = Returns (this, st).
Proof.
  intros Hlt. unfold Pool.swapTokens.
  destruct (Z.ltb_spec (balance (deref st fromToken)) amount); [reflexivity | lia].
Qed.

Lemma swapTokens_zero_output this fromToken toToken amount st :
  Pool.calculateSwapAmountOut this fromToken toToken amount st = Returns 0 ->
  Pool.swapTokens this fromToken toToken amount st = Returns (this, st).
Proof.
  intros Hout. unfold Pool.swapTokens. rewrite Hout.
  destruct (balance (deref st fromToken) <? amount); reflexivity.
Qed.

Lemma swapTheToken_unresolved a b f t amount :
  liquidityPools (swapSystem w) !! pool_key a b = None \/
  tokens (swapSystem w) !! f = None \/
  tokens (swapSystem w) !! t = None ->
  Registry.swapTheToken a b f t amount w = Trap.
Proof.
  unfold Registry.swapTheToken, map_get.
  intros [-> | [-> | ->]]; [reflexivity | |].
  - destruct (liquidityPools (swapSystem w) !! pool_key a b); reflexivity.
  - destruct (liquidityPools (swapSystem w) !! pool_key a b),
      (tokens (swapSystem w) !! f); reflexivity.
Qed.

Lemma swapTheToken_resolved a b f t amount p rf rt :
  liquidityPools (swapSystem w) !! pool_key a b = Some p ->
  tokens (swapSystem w) !! f = Some rf ->
  tokens (swapSystem w) !! t = Some rt ->
  Registry.swapTheToken a b f t amount w
  = (r ← Pool.swapTokens p rf rt amount (store w);
     Returns (mkWorld (mkSwapToken (tokens (swapSystem w))
                         (<[pool_key a b := r.1]> (liquidityPools (swapSystem w))))
                      r.2)).
Proof.
  intros Hp Hf Ht. unfold Registry.swapTheToken, map_get.
  rewrite Hp, Hf, Ht. reflexivity.
Qed.

Lemma swapTheToken_refused a b f t amount p rf rt :
  liquidityPools (swapSystem w) !! pool_key a b = Some p ->
  tokens (swapSystem w) !! f = Some rf ->
  tokens (swapSystem w) !! t = Some rt ->
  Pool.swapTokens p rf rt amount (store w) = Returns (p, store w) ->
  Registry.swapTheToken a b f t amount w = Returns w.
Proof.
  intros Hp Hf Ht Hswap.
  rewrite (swapTheToken_resolved a b f t amount p rf rt) by assumption.
  rewrite Hswap. simpl. f_equal. apply store_back_same, Hp.
Qed.

Lemma calculatePrice_unresolved a b :
  liquidityPools (swapSystem w) !! pool_key a b = None ->
  Registry.calculatePrice a b w = Trap.
Proof.
  intros Hk. unfold Registry.calculatePrice. rewrite (map_get_None _ _ Hk). reflexivity.
Qed.

Lemma calculatePrice_resolved a b p :
  liquidityPools (swapSystem w) !! pool_key a b = Some p ->
  Registry.calculatePrice a b w = Pool.calculatePrice p (store w).
Proof.
  intros Hk. unfold Registry.calculatePrice. rewrite (map_get_Some _ _ _ Hk). reflexivity.
Qed.

End Refusals.

(** C3.  A swap that names an unregistered pool or token is not a silent
    no-op: on the funded fixture, where "C" is not registered, each of the
    three swaps of the test-suite that name it is stopped inside the map
    lookup, before the test of the references is reached; and the swap of
    amount 0 from the still empty token A of the fixture is stopped by the
    division. *)
Theorem swap_with_unregistered_name_is_stopped :
  liquidityPools (swapSystem funded) !! pool_key "A" "C" = None /\
  tokens (swapSystem funded) !! "C" = None /\
  Registry.swapTheToken "A" "C" "A" "B" 100 funded = Trap /\
  Registry.swapTheToken "A" "B" "C" "B" 100 funded = Trap /\
  Registry.swapTheToken "A" "B" "A" "C" 100 funded = Trap /\
  Registry.swapTheToken "A" "B" "A" "B" 0 fixture = Trap.
Proof. repeat split. Qed.

(** C4.  On the fixture, where token A is still empty,
    swapTheToken("A","B","A","B",0) passes the balance guard and divides by
    fromToken.balance * 1000 + 0 * 997 = 0: the call is stopped instead of
    returning. *)
Theorem swap_of_zero_from_empty_token_traps :
  Registry.getTokenBalance "A" fixture = Returns 0 /\
  (balance (deref (store fixture) 0%nat) <? 0) = false /\
  U64.add (U64.mul (balance (deref (store fixture) 0%nat)) 1000) (U64.mul 0 997) = 0 /\
  Pool.calculateSwapAmountOut (mkPool 0%nat 1%nat 100 200) 0%nat 1%nat 0 (store fixture)
  = Trap /\
  Pool.swapTokens (mkPool 0%nat 1%nat 100 200) 0%nat 1%nat 0 (store fixture) = Trap /\
  Registry.swapTheToken "A" "B" "A" "B" 0 fixture = Trap.
Proof. repeat split. Qed.

(** C5.  An unregistered name does not read as 0 and is not priced 0: on the
    fixture getTokenBalance("Nonexistent") and
    calculatePrice("A","Nonexistent") are stopped inside the map lookup, and
    so is a swap that names "Nonexistent". *)
Theorem unregistered_names_are_stopped :
  tokens (swapSystem fixture) !! "Nonexistent" = None /\
  liquidityPools (swapSystem fixture) !! pool_key "A" "Nonexistent" = None /\
  Registry.getTokenBalance "Nonexistent" fixture = Trap /\
  Registry.calculatePrice "A" "Nonexistent" fixture = Trap /\
  Registry.swapTheToken "A" "B" "A" "Nonexistent" 100 fixture = Trap /\
  Registry.swapTheToken "A" "Nonexistent" "A" "B" 100 fixture = Trap.
Proof. repeat split. Qed.

(** ** The price *)

Lemma calculatePrice_wrapped (this : LiquidityPool) (st : Store) :
  reserveB this <> 0 ->
  Pool.calculatePrice this st
  = Returns (U64.mul (reserveA this) (balance (deref st (tokenB this))) / reserveB this).
Proof.
  intros Hnz. unfold Pool.calculatePrice.
  destruct (Z.eqb_spec (reserveB this) 0); [contradiction |].
  apply div_u_returns, Hnz.
Qed.

Lemma calculatePrice_empty_reserve (this : LiquidityPool) (st : Store) :
  reserveB this = 0 -> Pool.calculatePrice this st = Returns 0.
Proof. intros Hz. unfold Pool.calculatePrice. rewrite Hz. reflexivity. Qed.

(** The price is never stopped: the division is guarded. *)
Lemma calculatePrice_returns (this : LiquidityPool) (st : Store) :
  exists price, Pool.calculatePrice this st = Returns price.
Proof.
  destruct (decide (reserveB this = 0)) as [Hz | Hnz].
  - exists 0. apply calculatePrice_empty_reserve, Hz.
  - eexists. apply calculatePrice_wrapped, Hnz.
Qed.

(** C6, as stated, fails when the product overflows: in the pool of [deep],
    reserveA = reserveB = tokenB.balance = 2^32, the source returns 0 where
    the exact quotient is 2^32. *)
Lemma price_formula_overflow :
  liquidityPools (swapSystem deep) !! "A-B" = Some (mkPool 0%nat 1%nat (2 ^ 32) (2 ^ 32)) /\
  Registry.getTokenBalance "B" deep = Returns (2 ^ 32) /\
  Pool.calculatePrice (mkPool 0%nat 1%nat (2 ^ 32) (2 ^ 32)) (store deep) = Returns 0 /\
  Registry.calculatePrice "A" "B" deep = Returns 0 /\
  (2 ^ 32 * 2 ^ 32) / 2 ^ 32 = 2 ^ 32.
Proof. repeat split. Qed.

(** C6, amended.  calculatePrice returns 0 when reserveB = 0; otherwise it
    returns the quotient, rounded down, of reserveA * tokenB.balance reduced
    modulo 2^64 by reserveB, which is (reserveA * tokenB.balance) / reserveB
    whenever that product is below 2^64.  For the fresh tokens A and B and
    the pool with reserves (100, 200), the registry's calculatePrice("A","B")
    returns (100 * 0) / 200 = 0. *)
Theorem calculatePrice_formula (this : LiquidityPool) (st : Store) :
  U64.in_range (reserveA this) ->
  U64.in_range (balance (deref st (tokenB this))) ->
  (reserveB this = 0 -> Pool.calculatePrice this st = Returns 0) /\
  (reserveB this <> 0 ->
   Pool.calculatePrice this st
   = Returns (U64.mul (reserveA this) (balance (deref st (tokenB this)))
              / reserveB this)) /\
  (reserveB this <> 0 ->
   reserveA this * balance (deref st (tokenB this)) < U64.modulus ->
   Pool.calculatePrice this st
   = Returns (reserveA this * balance (deref st (tokenB this)) / reserveB this)) /\
  Registry.calculatePrice "A" "B" fixture = Returns ((100 * 0) / 200) /\
  (100 * 0) / 200 = 0.
Proof.
  intros HrA Hb. unfold U64.in_range in *.
  split; [apply calculatePrice_empty_reserve |].
  split; [apply calculatePrice_wrapped |].
  split; [| split; reflexivity].
  intros Hnz Hfit. rewrite calculatePrice_wrapped by assumption.
  rewrite mul_exact by lia. reflexivity.
Qed.

Lemma calculatePrice_formula_witness :
  Pool.calculatePrice (mkPool 0%nat 1%nat 100 200) (store funded)
  = Returns (U64.mul 100 400 / 200) /\
  Pool.calculatePrice (mkPool 0%nat 1%nat 100 200) (store funded)
  = Returns (100 * 400 / 200) /\
  Pool.calculatePrice (mkPool 0%nat 1%nat 100 0) (store funded) = Returns 0.
Proof.
  destruct (calculatePrice_formula (mkPool 0%nat 1%nat 100 200) (store funded))
    as (_ & Hwrapped & Hexact & _).
  - vm_compute. split; [discriminate | reflexivity].
  - vm_compute. split; [discriminate | reflexivity].
  - destruct (calculatePrice_formula (mkPool 0%nat 1%nat 100 0) (store funded))
      as (Hzero & _).
    + vm_compute. split; [discriminate | reflexivity].
    + vm_compute. split; [discriminate | reflexivity].
    + split; [apply Hwrapped; discriminate |].
      split; [apply Hexact; [discriminate | reflexivity] |].
      apply Hzero. reflexivity.
Defined.

(** ** Monotonicity of the swap output *)

(** C7, as stated, fails when a product overflows: in [thin] (reserveB = 2,
    fromToken empty) the input 1 yields 2 and the larger input 2^63 yields 0. *)
Lemma swap_output_not_monotone :
  1 <= 2 ^ 63 /\
  U64.in_range 1 /\
  U64.in_range (2 ^ 63) /\
  Pool.calculateSwapAmountOut (mkPool 0%nat 1%nat 100 2) 0%nat 1%nat 1 (store thin)
  = Returns 2 /\
  Pool.calculateSwapAmountOut (mkPool 0%nat 1%nat 100 2) 0%nat 1%nat (2 ^ 63) (store thin)
  = Returns 0 /\
  ~ 2 <= 0.
Proof. repeat split; vm_compute; congruence. Qed.

(** C7, amended.  For a fixed pool and fromToken.balance and all
    amountIn1 <= amountIn2 such that, at amountIn2, neither
    amountIn * 997 * reserveB nor fromToken.balance * 1000 + amountIn * 997
    reaches 2^64, and such that the divisor at amountIn1 is not zero, both
    calls return and the output for amountIn1 is at most the output for
    amountIn2. *)
Theorem calculateSwapAmountOut_monotone (this : LiquidityPool)
    (fromToken toToken : ref) (amountIn1 amountIn2 : Z) (st : Store) :
  0 <= amountIn1 <= amountIn2 ->
  U64.in_range (reserveB this) ->
  U64.in_range (balance (deref st fromToken)) ->
  amountIn2 * 997 * reserveB this < U64.modulus ->
  balance (deref st fromToken) * 1000 + amountIn2 * 997 < U64.modulus ->
  0 < balance (deref st fromToken) * 1000 + amountIn1 * 997 ->
  exists out1 out2,
    Pool.calculateSwapAmountOut this fromToken toToken amountIn1 st = Returns out1 /\
    Pool.calculateSwapAmountOut this fromToken toToken amountIn2 st = Returns out2 /\
    out1 <= out2.
Proof.
  intros Ha Hr Hb Hnum Hden Hpos. unfold U64.in_range in *.
  set (bal := balance (deref st fromToken)) in *.
  set (rB := reserveB this) in *.
  assert (Hnum1 : amountIn1 * 997 * rB <= amountIn2 * 997 * rB) by nia.
  eexists _, _.
  split; [apply calculateSwapAmountOut_exact; fold bal rB; lia |].
  split; [apply calculateSwapAmountOut_exact; fold bal rB; lia |].
  fold bal rB. apply div_le_cross; nia.
Qed.

Lemma calculateSwapAmountOut_monotone_witness :
  exists out1 out2,
    Pool.calculateSwapAmountOut (mkPool 0%nat 1%nat 100 200) 0%nat 1%nat 50 (store funded)
    = Returns out1 /\
    Pool.calculateSwapAmountOut (mkPool 0%nat 1%nat 100 200) 0%nat 1%nat 100 (store funded)
    = Returns out2 /\
    out1 <= out2.
Proof.
  apply (calculateSwapAmountOut_monotone (mkPool 0%nat 1%nat 100 200) 0%nat 1%nat 50 100
           (store funded)); vm_compute; try (split; [discriminate | reflexivity]);
    try reflexivity; split; discriminate.
Defined.

(** ** Adding liquidity *)

Lemma addLiquidity_resolved (w : World) (a b : string) (x y : Z) (pl : LiquidityPool) :
  liquidityPools (swapSystem w) !! pool_key a b = Some pl ->
  Registry.addLiquidity a b x y w
  = Returns (mkWorld (mkSwapToken (tokens (swapSystem w))
                        (<[pool_key a b := (Pool.addLiquidity pl x y (store w)).1]>
                           (liquidityPools (swapSystem w))))
                     (Pool.addLiquidity pl x y (store w)).2).
Proof.
  intros Hpl. unfold Registry.addLiquidity. rewrite (map_get_Some _ _ _ Hpl).
  reflexivity.
Qed.

Lemma addLiquidity_unresolved (w : World) (a b : string) (x y : Z) :
  liquidityPools (swapSystem w) !! pool_key a b = None ->
  Registry.addLiquidity a b x y w = Trap.
Proof.
  intros Hpl. unfold Registry.addLiquidity. rewrite (map_get_None _ _ Hpl).
  reflexivity.
Qed.

Lemma exec_addLiquidity_resolved (w : World) (a b : string) (x y : Z)
    (pl : LiquidityPool) :
  liquidityPools (swapSystem w) !! pool_key a b = Some pl ->
  exec (AddLiquidity a b x y) w
  = mkWorld (mkSwapToken (tokens (swapSystem w))
               (<[pool_key a b := (Pool.addLiquidity pl x y (store w)).1]>
                  (liquidityPools (swapSystem w))))
            (Pool.addLiquidity pl x y (store w)).2.
Proof.
  intros Hpl. cbn [exec]. rewrite (addLiquidity_resolved w a b x y pl Hpl).
  reflexivity.
Qed.

Lemma exec_addLiquidity_unresolved (w : World) (a b : string) (x y : Z) :
  liquidityPools (swapSystem w) !! pool_key a b = None ->
  exec (AddLiquidity a b x y) w = w.
Proof.
  intros Hpl. cbn [exec]. rewrite (addLiquidity_unresolved w a b x y Hpl).
  reflexivity.
Qed.

Lemma addLiquidityPool_unresolved (a b : string) (x y : Z) (w : World) :
  tokens (swapSystem w) !! a = None \/ tokens (swapSystem w) !! b = None ->
  Registry.addLiquidityPool a b x y w = Trap.
Proof.
  unfold Registry.addLiquidityPool, map_get. intros [-> | ->]; [reflexivity |].
  destruct (tokens (swapSystem w) !! a); reflexivity.
Qed.

Lemma addLiquidityPool_resolved (a b : string) (x y : Z) (w : World) (ra rb : ref) :
  tokens (swapSystem w) !! a = Some ra ->
  tokens (swapSystem w) !! b = Some rb ->
  Registry.addLiquidityPool a b x y w
  = Returns (mkWorld (mkSwapToken (tokens (swapSystem w))
                        (<[pool_key a b := mkPool ra rb x y]>
                           (liquidityPools (swapSystem w))))
                     (store w)).
Proof.
  intros Ha Hb. unfold Registry.addLiquidityPool, map_get. rewrite Ha, Hb. reflexivity.
Qed.

(** The world after addLiquidityPool, returned or stopped. *)
Lemma exec_addLiquidityPool_cases (a b : string) (x y : Z) (w : World) :
  exec (AddLiquidityPool a b x y) w = w \/
  exists ra rb,
    tokens (swapSystem w) !! a = Some ra /\
    tokens (swapSystem w) !! b = Some rb /\
    exec (AddLiquidityPool a b x y) w
    = mkWorld (mkSwapToken (tokens (swapSystem w))
                 (<[pool_key a b := mkPool ra rb x y]> (liquidityPools (swapSystem w))))
              (store w).
Proof.
  cbn [exec].
  destruct (tokens (swapSystem w) !! a) as [ra |] eqn:Ha;
    [| left; rewrite addLiquidityPool_unresolved by auto; reflexivity].
  destruct (tokens (swapSystem w) !! b) as [rb |] eqn:Hb;
    [| left; rewrite addLiquidityPool_unresolved by auto; reflexivity].
  right. exists ra, rb. rewrite (addLiquidityPool_resolved a b x y w ra rb Ha Hb).
  auto.
Qed.

Lemma addLiquidity_wrapped_amounts (this : LiquidityPool) (x y : Z) (st : Store) :
  Pool.addLiquidity this (U64.wrap x) (U64.wrap y) st = Pool.addLiquidity this x y st.
Proof. unfold Pool.addLiquidity, credit. rewrite !add_wrap_r. reflexivity. Qed.

(** C8.  addLiquidity(x, y) followed by addLiquidity(p, q) leaves the same
    pool and the same store as the single call addLiquidity(x+p, y+q), and
    the same as the two calls made in the other order; the same holds for
    the registry's addLiquidity on a pair of names. *)
Theorem addLiquidity_additive (this : LiquidityPool) (x y p q : Z) (st : Store)
    (w : World) (tokenAName tokenBName : string) :
  Pool.addLiquidity (Pool.addLiquidity this x y st).1 p q (Pool.addLiquidity this x y st).2
  = Pool.addLiquidity this (x + p) (y + q) st /\
  Pool.addLiquidity (Pool.addLiquidity this x y st).1 p q (Pool.addLiquidity this x y st).2
  = Pool.addLiquidity this (U64.add x p) (U64.add y q) st /\
  Pool.addLiquidity (Pool.addLiquidity this x y st).1 p q (Pool.addLiquidity this x y st).2
  = Pool.addLiquidity (Pool.addLiquidity this p q st).1 x y (Pool.addLiquidity this p q st).2 /\
  (w1 ← Registry.addLiquidity tokenAName tokenBName x y w;
   Registry.addLiquidity tokenAName tokenBName p q w1)
  = Registry.addLiquidity tokenAName tokenBName (x + p) (y + q) w /\
  (w1 ← Registry.addLiquidity tokenAName tokenBName x y w;
   Registry.addLiquidity tokenAName tokenBName p q w1)
  = (w1 ← Registry.addLiquidity tokenAName tokenBName p q w;
     Registry.addLiquidity tokenAName tokenBName x y w1).
Proof.
  assert (Hone : forall this x y p q st,
    Pool.addLiquidity (Pool.addLiquidity this x y st).1 p q (Pool.addLiquidity this x y st).2
    = Pool.addLiquidity this (x + p) (y + q) st).
  { clear. intros this x y p q st. unfold Pool.addLiquidity. simpl.
    rewrite (credit_swap (tokenA this) (tokenB this)), !credit_credit, !add_add.
    reflexivity. }
  assert (Hreg : forall a b x y p q w,
    (w1 ← Registry.addLiquidity a b x y w; Registry.addLiquidity a b p q w1)
    = Registry.addLiquidity a b (x + p) (y + q) w).
  { clear -Hone. intros a b x y p q w.
    destruct (liquidityPools (swapSystem w) !! pool_key a b) as [pl |] eqn:Hpl.
    - rewrite (addLiquidity_resolved w a b x y pl Hpl). cbn [mbind outcome_bind].
      erewrite addLiquidity_resolved by (cbn [swapSystem liquidityPools]; apply lookup_insert_eq).
      cbn [swapSystem liquidityPools tokens store].
      rewrite Hone, insert_insert_eq.
      symmetry. apply addLiquidity_resolved, Hpl.
    - rewrite !addLiquidity_unresolved by assumption. reflexivity. }
  split; [apply Hone |].
  split.
  { rewrite Hone. symmetry. apply addLiquidity_wrapped_amounts. }
  split.
  { rewrite !Hone. f_equal; lia. }
  split; [apply Hreg |].
  rewrite !Hreg. f_equal; lia.
Qed.

(** ** Invariants of the registry *)

Section StoreInvariant.

Implicit Types (st : Store) (r : ref) (v : Z).

Lemma balances_in_range_deref st r :
  balances_in_range st -> U64.in_range (balance (deref st r)).
Proof.
  intros Hst. unfold deref.
  destruct (objects st !! r) as [t |] eqn:Hr; simpl.
  - apply (Hst r t Hr).
  - split; [lia | apply modulus_pos].
Qed.

Lemma balances_in_range_set_balance r v st :
  U64.in_range v -> balances_in_range st -> balances_in_range (set_balance r v st).
Proof.
  intros Hv Hst r' t. unfold set_balance. simpl.
  intros Hlook. apply list_lookup_insert_Some in Hlook.
  destruct Hlook as [(_ & <- & _) | (_ & Hold)].
  - exact Hv.
  - apply (Hst r' t Hold).
Qed.

Lemma balances_in_range_credit r v st :
  balances_in_range st -> balances_in_range (credit r v st).
Proof. apply balances_in_range_set_balance, add_in_range. Qed.

Lemma balances_in_range_debit r v st :
  balances_in_range st -> balances_in_range (debit r v st).
Proof. apply balances_in_range_set_balance, sub_in_range. Qed.

Lemma balances_in_range_alloc n st :
  balances_in_range st -> balances_in_range (alloc (newToken n) st).2.
Proof.
  intros Hst r t. unfold alloc. simpl. intros Hlook.
  apply lookup_app_Some in Hlook. destruct Hlook as [Hold | (_ & Hnew)].
  - apply (Hst r t Hold).
  - apply list_lookup_singleton_Some in Hnew. destruct Hnew as (_ & <-).
    split; [simpl; lia | apply modulus_pos].
Qed.

Lemma swapTokens_cases this fromToken toToken amount st :
  Pool.swapTokens this fromToken toToken amount st = Trap \/
  Pool.swapTokens this fromToken toToken amount st = Returns (this, st) \/
  exists amountOut,
    (balance (deref st fromToken) <? amount) = false /\
    Pool.calculateSwapAmountOut this fromToken toToken amount st = Returns amountOut /\
    Pool.swapTokens this fromToken toToken amount st
    = Returns (mkPool (tokenA this) (tokenB this)
                 (U64.add (reserveA this) amount) (U64.sub (reserveB this) amountOut),
               generateEvent
                 (Pool.swap_message amount
                    (name (deref (credit toToken amountOut (debit fromToken amount st)) fromToken))
                    amountOut
                    (name (deref (credit toToken amountOut (debit fromToken amount st)) toToken)))
                 (credit toToken amountOut (debit fromToken amount st))).
Proof.
  unfold Pool.swapTokens.
  destruct (balance (deref st fromToken) <? amount); [auto |].
  destruct (Pool.calculateSwapAmountOut this fromToken toToken amount st) as [out |];
    [| auto].
  simpl. destruct (out =? 0); [auto |].
  right. right. exists out. auto.
Qed.

End StoreInvariant.

Section WorldInvariant.

Lemma wf_init : wf_world Registry.init.
Proof. split; intros ? ? H; simpl in H; rewrite lookup_empty in H; discriminate. Qed.

Lemma u64_init : u64_world Registry.init.
Proof.
  split.
  - intros r t H. destruct r; discriminate.
  - intros k p H. simpl in H. rewrite lookup_empty in H. discriminate.
Qed.

Lemma wf_addToken n w : wf_world w -> wf_world (Registry.addToken n w).
Proof.
  intros [Ht Hp]. unfold Registry.addToken, alloc. simpl. split; simpl.
  - intros m r Hlook. rewrite length_app. simpl.
    apply lookup_insert_Some in Hlook. destruct Hlook as [(_ & <-) | (_ & Hold)].
    + lia.
    + specialize (Ht m r Hold). lia.
  - intros k p Hlook. rewrite length_app. simpl.
    destruct (Hp k p Hlook). lia.
Qed.

Lemma u64_addToken n w : u64_world w -> u64_world (Registry.addToken n w).
Proof.
  intros [Hb Hr]. split.
  - apply (balances_in_range_alloc n (store w)), Hb.
  - exact Hr.
Qed.

Lemma wf_addLiquidityPool a b x y w :
  wf_world w -> wf_world (exec (AddLiquidityPool a b x y) w).
Proof.
  intros [Ht Hp].
  destruct (exec_addLiquidityPool_cases a b x y w) as [-> | (ra & rb & Ha & Hb & ->)];
    [split; assumption |].
  split; simpl; [exact Ht |].
  intros k p Hlook. apply lookup_insert_Some in Hlook.
  destruct Hlook as [(_ & <-) | (_ & Hold)]; simpl; eauto.
Qed.

Lemma u64_addLiquidityPool a b x y w :
  U64.in_range x -> U64.in_range y ->
  u64_world w -> u64_world (exec (AddLiquidityPool a b x y) w).
Proof.
  intros Hx Hy [Hb Hr].
  destruct (exec_addLiquidityPool_cases a b x y w) as [-> | (ra & rb & _ & _ & ->)];
    [split; assumption |].
  split; simpl; [exact Hb |].
  intros k p Hlook. apply lookup_insert_Some in Hlook.
  destruct Hlook as [(_ & <-) | (_ & Hold)]; simpl; eauto.
Qed.

Lemma wf_addLiquidity a b x y w :
  wf_world w -> wf_world (exec (AddLiquidity a b x y) w).
Proof.
  intros [Ht Hp].
  destruct (liquidityPools (swapSystem w) !! pool_key a b) as [pl |] eqn:Hpl.
  - rewrite (exec_addLiquidity_resolved w a b x y pl Hpl).
    rewrite addLiquidity_store, addLiquidity_pool.
    split; cbn [swapSystem tokens liquidityPools store]; rewrite !length_credit.
    + exact Ht.
    + intros k p Hlook. apply lookup_insert_Some in Hlook.
      destruct Hlook as [(_ & <-) | (_ & Hold)]; simpl; eauto.
  - rewrite exec_addLiquidity_unresolved by assumption. split; assumption.
Qed.

Lemma u64_addLiquidity a b x y w :
  u64_world w -> u64_world (exec (AddLiquidity a b x y) w).
Proof.
  intros [Hb Hr].
  destruct (liquidityPools (swapSystem w) !! pool_key a b) as [pl |] eqn:Hpl.
  - rewrite (exec_addLiquidity_resolved w a b x y pl Hpl).
    rewrite addLiquidity_store, addLiquidity_pool.
    split; cbn [swapSystem tokens liquidityPools store].
    + apply balances_in_range_credit, balances_in_range_credit, Hb.
    + intros k p Hlook. apply lookup_insert_Some in Hlook.
      destruct Hlook as [(_ & <-) | (_ & Hold)]; simpl; eauto using add_in_range.
  - rewrite exec_addLiquidity_unresolved by assumption. split; assumption.
Qed.

Lemma swapTheToken_cases a b f t amount w :
  Registry.swapTheToken a b f t amount w = Trap \/
  Registry.swapTheToken a b f t amount w = Returns w \/
  exists p rf rt amountOut,
    liquidityPools (swapSystem w) !! pool_key a b = Some p /\
    tokens (swapSystem w) !! f = Some rf /\
    tokens (swapSystem w) !! t = Some rt /\
    (balance (deref (store w) rf) <? amount) = false /\
    Pool.calculateSwapAmountOut p rf rt amount (store w) = Returns amountOut /\
    exists msg,
      Registry.swapTheToken a b f t amount w
      = Returns (mkWorld
                   (mkSwapToken (tokens (swapSystem w))
                      (<[pool_key a b :=
                           mkPool (tokenA p) (tokenB p)
                             (U64.add (reserveA p) amount)
                             (U64.sub (reserveB p) amountOut)]>
                         (liquidityPools (swapSystem w))))
                   (generateEvent msg
                      (credit rt amountOut (debit rf amount (store w))))).
Proof.
  destruct (liquidityPools (swapSystem w) !! pool_key a b) as [p |] eqn:Hp;
    [| left; apply swapTheToken_unresolved; auto].
  destruct (tokens (swapSystem w) !! f) as [rf |] eqn:Hf;
    [| left; apply swapTheToken_unresolved; auto].
  destruct (tokens (swapSystem w) !! t) as [rt |] eqn:Ht;
    [| left; apply swapTheToken_unresolved; auto].
  rewrite (swapTheToken_resolved w a b f t amount p rf rt Hp Hf Ht).
  destruct (swapTokens_cases p rf rt amount (store w))
    as [Htrap | [Hsame | (out & Hguard & Hout & Hdone)]].
  - left. rewrite Htrap. reflexivity.
  - right. left. rewrite Hsame. simpl. f_equal. apply store_back_same, Hp.
  - right. right. exists p, rf, rt, out.
    repeat (split; [first [reflexivity | assumption] |]).
    eexists. rewrite Hdone. reflexivity.
Qed.

Lemma wf_exec c w : wf_world w -> wf_world (exec c w).
Proof.
  intros Hw. destruct c as [n | a b x y | a b x y | a b f t x | n | a b];
    [apply wf_addToken, Hw | apply wf_addLiquidityPool, Hw
    | apply wf_addLiquidity, Hw | | exact Hw | exact Hw].
  cbn [exec].
  destruct (swapTheToken_cases a b f t x w)
    as [-> | [-> | (p & rf & rt & out & Hp & _ & _ & _ & _ & msg & ->)]];
    [assumption | assumption |].
  destruct Hw as [Ht Hpools].
  split; cbn [settle swapSystem tokens liquidityPools store generateEvent objects];
    rewrite length_credit, length_debit.
  - exact Ht.
  - intros k q Hlook. apply lookup_insert_Some in Hlook.
    destruct Hlook as [(_ & <-) | (_ & Hold)]; simpl; eauto.
Qed.

Lemma u64_exec c w : call_ok c -> u64_world w -> u64_world (exec c w).
Proof.
  intros Hc Hw. destruct c as [n | a b x y | a b x y | a b f t x | n | a b];
    [apply u64_addToken, Hw | | apply u64_addLiquidity, Hw | | exact Hw | exact Hw].
  - destruct Hc. apply u64_addLiquidityPool; assumption.
  - cbn [exec].
    destruct (swapTheToken_cases a b f t x w)
      as [-> | [-> | (p & rf & rt & out & Hp & _ & _ & _ & _ & msg & ->)]];
      [assumption | assumption |].
    destruct Hw as [Hb Hr].
    split; cbn [settle swapSystem tokens liquidityPools store].
    + intros r tok. cbn [generateEvent objects].
      apply (balances_in_range_credit rt out (debit rf x (store w))).
      apply balances_in_range_debit, Hb.
    + intros k q Hlook. apply lookup_insert_Some in Hlook.
      destruct Hlook as [(_ & <-) | (_ & Hold)]; simpl;
        eauto using add_in_range, sub_in_range.
Qed.

Lemma run_invariant cs w :
  Forall call_ok cs -> wf_world w -> u64_world w ->
  wf_world (run cs w) /\ u64_world (run cs w).
Proof.
  intros Hcs. revert w. induction Hcs as [| c cs Hc _ IH]; intros w Hwf Hu64.
  - split; assumption.
  - simpl. apply IH; [apply wf_exec | apply u64_exec]; assumption.
Qed.

End WorldInvariant.

(** C9.  After any sequence of registry calls (addToken, addLiquidityPool,
    addLiquidity, swapTheToken, getTokenBalance, calculatePrice) with u64
    arguments, starting from the empty registry, every token object has
    balance >= 0 (and below 2^64), so does every balance that getTokenBalance
    returns, and the subtraction of swapTokens, which is only reached when
    fromToken.balance >= amount, is exact: it does not wrap around. *)
Theorem balances_never_negative (cs : list Call) :
  Forall call_ok cs ->
  (forall r t, objects (store (run cs Registry.init)) !! r = Some t ->
     0 <= balance t < U64.modulus) /\
  (forall n v, Registry.getTokenBalance n (run cs Registry.init) = Returns v ->
     0 <= v < U64.modulus) /\
  (forall fromToken amount,
     U64.in_range amount ->
     (balance (deref (store (run cs Registry.init)) fromToken) <? amount) = false ->
     U64.sub (balance (deref (store (run cs Registry.init)) fromToken)) amount
     = balance (deref (store (run cs Registry.init)) fromToken) - amount /\
     0 <= balance (deref (store (run cs Registry.init)) fromToken) - amount).
Proof.
  intros Hcs.
  destruct (run_invariant cs Registry.init Hcs wf_init u64_init) as [_ [Hb _]].
  split; [exact Hb |].
  split.
  - intros n v Hv. destruct (getTokenBalance_returns n _ v Hv) as (r & _ & <-).
    apply (balances_in_range_deref _ r Hb).
  - intros rf amount Ha Hguard.
    apply Z.ltb_ge in Hguard.
    pose proof (balances_in_range_deref _ rf Hb) as Hrange.
    unfold U64.in_range in *.
    split; [apply sub_exact; unfold U64.in_range; lia | lia].
Qed.

Lemma balances_never_negative_witness :
  0 <= 100 < U64.modulus /\
  U64.sub (balance (deref (store (run session Registry.init)) 0%nat)) 100
  = balance (deref (store (run session Registry.init)) 0%nat) - 100.
Proof.
  destruct (balances_never_negative session) as (_ & Hread & Hsub).
  - unfold session. repeat constructor; vm_compute; discriminate.
  - split; [apply (Hread "A"); reflexivity |].
    apply Hsub; [vm_compute; split; [discriminate | reflexivity] | reflexivity].
Defined.

(** * Further properties of the registry *)

(** ** Adding a token *)

Section AddToken.

Lemma balance_deref_alloc n st r :
  balance (deref (alloc (newToken n) st).2 r) = balance (deref st r).
Proof.
  unfold deref, alloc. simpl.
  destruct (decide (r < length (objects st))%nat) as [Hlt | Hge].
  - rewrite lookup_app_l by assumption. reflexivity.
  - rewrite (lookup_ge_None_2 (objects st)) by lia.
    destruct (decide (r = length (objects st))) as [-> | Hne].
    + rewrite list_lookup_middle by reflexivity. reflexivity.
    + rewrite lookup_ge_None_2; [reflexivity |].
      rewrite length_app. simpl. lia.
Qed.

Lemma deref_alloc_old n st r :
  (r < length (objects st))%nat -> deref (alloc (newToken n) st).2 r = deref st r.
Proof.
  intros Hlt. unfold deref, alloc. simpl. rewrite lookup_app_l by assumption.
  reflexivity.
Qed.

Lemma deref_alloc_new n st :
  deref (alloc (newToken n) st).2 (length (objects st)) = newToken n.
Proof.
  unfold deref, alloc. simpl. rewrite list_lookup_middle by reflexivity. reflexivity.
Qed.

Lemma tokens_addToken n w :
  tokens (swapSystem (Registry.addToken n w))
  = <[n := length (objects (store w))]> (tokens (swapSystem w)).
Proof. reflexivity. Qed.

Lemma pools_addToken n w :
  liquidityPools (swapSystem (Registry.addToken n w)) = liquidityPools (swapSystem w).
Proof. reflexivity. Qed.

Lemma store_addToken n w :
  store (Registry.addToken n w) = (alloc (newToken n) (store w)).2.
Proof. reflexivity. Qed.

Lemma getTokenBalance_addToken_same n w :
  Registry.getTokenBalance n (Registry.addToken n w) = Returns 0.
Proof.
  rewrite (getTokenBalance_resolved _ n (length (objects (store w))))
    by (rewrite tokens_addToken; apply lookup_insert_eq).
  rewrite store_addToken, deref_alloc_new. reflexivity.
Qed.

Lemma getTokenBalance_addToken_other n m w :
  m <> n ->
  Registry.getTokenBalance m (Registry.addToken n w) = Registry.getTokenBalance m w.
Proof.
  intros Hne. unfold Registry.getTokenBalance, map_get.
  rewrite tokens_addToken, lookup_insert_ne by congruence.
  destruct (tokens (swapSystem w) !! m) as [r |]; [| reflexivity].
  cbn [mbind outcome_bind]. rewrite store_addToken, balance_deref_alloc. reflexivity.
Qed.

Lemma calculatePrice_addToken n a b w :
  Registry.calculatePrice a b (Registry.addToken n w) = Registry.calculatePrice a b w.
Proof.
  unfold Registry.calculatePrice, map_get. rewrite pools_addToken.
  destruct (liquidityPools (swapSystem w) !! pool_key a b) as [p |]; [| reflexivity].
  cbn [mbind outcome_bind].
  unfold Pool.calculatePrice. rewrite store_addToken, balance_deref_alloc. reflexivity.
Qed.

End AddToken.

(** X1.  addToken(name) makes the balance read under that name 0, whatever
    it was before, and leaves the balance read under every other name as it
    was. *)
Theorem addToken_resets_one_balance (n m : string) (w : World) :
  Registry.getTokenBalance n (Registry.addToken n w) = Returns 0 /\
  (m <> n ->
   Registry.getTokenBalance m (Registry.addToken n w) = Registry.getTokenBalance m w).
Proof.
  split.
  - apply getTokenBalance_addToken_same.
  - apply getTokenBalance_addToken_other.
Qed.

Lemma addToken_resets_one_balance_witness :
  Registry.getTokenBalance "A" (Registry.addToken "A" funded) = Returns 0 /\
  Registry.getTokenBalance "B" (Registry.addToken "A" funded)
  = Registry.getTokenBalance "B" funded.
Proof.
  destruct (addToken_resets_one_balance "A" "B" funded) as [Hsame Hother].
  split; [exact Hsame |]. apply Hother. discriminate.
Defined.

(** X2.  A token added again under its name is a new object, detached from
    the pools built before: the pool map and every price are unchanged, and
    liquidity added afterwards to any pool goes to the objects the pool was
    built with, so the balance read under the name stays 0. *)
Theorem readded_token_is_detached (w : World) (n a b : string) (x y : Z) :
  wf_world w ->
  liquidityPools (swapSystem (Registry.addToken n w)) = liquidityPools (swapSystem w) /\
  Registry.calculatePrice a b (Registry.addToken n w) = Registry.calculatePrice a b w /\
  Registry.getTokenBalance n
    (exec (AddLiquidity a b x y) (Registry.addToken n w)) = Returns 0.
Proof.
  intros [_ Hpools].
  split; [reflexivity |]. split; [apply calculatePrice_addToken |].
  destruct (liquidityPools (swapSystem (Registry.addToken n w)) !! pool_key a b)
    as [p |] eqn:Hp.
  - rewrite (exec_addLiquidity_resolved _ a b x y p Hp).
    rewrite (getTokenBalance_resolved _ n (length (objects (store w))))
      by (cbn [swapSystem tokens]; rewrite tokens_addToken; apply lookup_insert_eq).
    cbn [store]. rewrite addLiquidity_store.
    rewrite pools_addToken in Hp. destruct (Hpools _ _ Hp) as [HA HB].
    rewrite !deref_credit_ne by lia.
    rewrite store_addToken, deref_alloc_new. reflexivity.
  - rewrite exec_addLiquidity_unresolved by assumption.
    apply getTokenBalance_addToken_same.
Qed.

Lemma readded_token_is_detached_witness :
  liquidityPools (swapSystem (Registry.addToken "B" warm)) = liquidityPools (swapSystem warm) /\
  Registry.calculatePrice "A" "B" (Registry.addToken "B" warm)
  = Registry.calculatePrice "A" "B" warm /\
  Registry.getTokenBalance "B"
    (exec (AddLiquidity "A" "B" 5 7) (Registry.addToken "B" warm)) = Returns 0.
Proof.
  apply (readded_token_is_detached warm "B" "A" "B" 5 7).
  apply (run_invariant _ Registry.init).
  - repeat constructor; vm_compute; discriminate.
  - apply wf_init.
  - apply u64_init.
Defined.

(** ** Adding a pool *)

(** X3.  addLiquidityPool looks both names up before it writes.  When either
    name is not registered the call is stopped, so nothing is written;
    otherwise it returns, the store and the token map are untouched, the
    pool found under the pair's key references the two registered objects
    and carries exactly the given reserves, and every other key keeps its
    pool.  A later addLiquidityPool on the same pair replaces the pool: the
    last one wins. *)
Theorem addLiquidityPool_registers (a b : string) (x y x' y' : Z) (w : World)
    (ra rb : ref) :
  (tokens (swapSystem w) !! a = None \/ tokens (swapSystem w) !! b = None ->
   Registry.addLiquidityPool a b x y w = Trap) /\
  (tokens (swapSystem w) !! a = Some ra ->
   tokens (swapSystem w) !! b = Some rb ->
   exists w',
     Registry.addLiquidityPool a b x y w = Returns w' /\
     store w' = store w /\
     tokens (swapSystem w') = tokens (swapSystem w) /\
     liquidityPools (swapSystem w') !! pool_key a b = Some (mkPool ra rb x y) /\
     (forall k, k <> pool_key a b ->
        liquidityPools (swapSystem w') !! k = liquidityPools (swapSystem w) !! k)) /\
  (w1 ← Registry.addLiquidityPool a b x y w; Registry.addLiquidityPool a b x' y' w1)
  = Registry.addLiquidityPool a b x' y' w.
Proof.
  split; [apply addLiquidityPool_unresolved |].
  split.
  - intros Ha Hb. rewrite (addLiquidityPool_resolved a b x y w ra rb Ha Hb).
    eexists. split; [reflexivity |]. cbn [swapSystem tokens liquidityPools store].
    split; [reflexivity |]. split; [reflexivity |].
    split; [apply lookup_insert_eq |].
    intros k Hk. apply lookup_insert_ne. congruence.
  - destruct (tokens (swapSystem w) !! a) as [ta |] eqn:Ha;
      [| rewrite !(addLiquidityPool_unresolved a b _ _ w) by auto; reflexivity].
    destruct (tokens (swapSystem w) !! b) as [tb |] eqn:Hb;
      [| rewrite !(addLiquidityPool_unresolved a b _ _ w) by auto; reflexivity].
    rewrite (addLiquidityPool_resolved a b x y w ta tb Ha Hb).
    rewrite (addLiquidityPool_resolved a b x' y' w ta tb Ha Hb).
    cbn [mbind outcome_bind].
    rewrite (addLiquidityPool_resolved a b x' y' _ ta tb) by assumption.
    cbn [swapSystem tokens liquidityPools store].
    rewrite insert_insert_eq. reflexivity.
Qed.

Lemma addLiquidityPool_registers_witness :
  Registry.addLiquidityPool "A" "C" 1 2 funded = Trap /\
  exists w',
    Registry.addLiquidityPool "B" "A" 7 9 funded = Returns w' /\
    store w' = store funded /\
    tokens (swapSystem w') = tokens (swapSystem funded) /\
    liquidityPools (swapSystem w') !! pool_key "B" "A" = Some (mkPool 1%nat 0%nat 7 9) /\
    (forall k, k <> pool_key "B" "A" ->
       liquidityPools (swapSystem w') !! k = liquidityPools (swapSystem funded) !! k).
Proof.
  destruct (addLiquidityPool_registers "A" "C" 1 2 3 4 funded 0%nat 0%nat)
    as (Hnone & _ & _).
  destruct (addLiquidityPool_registers "B" "A" 7 9 3 4 funded 1%nat 0%nat)
    as (_ & Hsome & _).
  split.
  - apply Hnone. right. reflexivity.
  - apply Hsome; reflexivity.
Defined.

(** ** Pool keys *)

Section PoolKey.

Lemma dash_free_cons c s :
  dash_free (String c s) = true -> String c EmptyString <> "-" /\ dash_free s = true.
Proof.
  intros H.
  change (negb (String.eqb (String c EmptyString) "-") && dash_free s = true) in H.
  apply andb_prop in H. destruct H as [Hc Hs].
  split; [| assumption].
  apply negb_true_iff in Hc. apply String.eqb_neq in Hc. exact Hc.
Qed.

Lemma pool_key_inj a b a' b' :
  dash_free a = true -> dash_free a' = true ->
  pool_key a b = pool_key a' b' -> a = a' /\ b = b'.
Proof.
  unfold pool_key. revert a'. induction a as [| c a IH]; intros [| c' a'] Ha Ha' Heq.
  - simpl in Heq. injection Heq as Hb. auto.
  - simpl in Heq. injection Heq as Hc _. subst c'.
    apply dash_free_cons in Ha'. destruct Ha' as [Hne _]. contradiction Hne. reflexivity.
  - simpl in Heq. injection Heq as Hc _. subst c.
    apply dash_free_cons in Ha. destruct Ha as [Hne _]. contradiction Hne. reflexivity.
  - simpl in Heq. injection Heq as Hc Hrest. subst c'.
    apply dash_free_cons in Ha. apply dash_free_cons in Ha'.
    destruct (IH a' (proj2 Ha) (proj2 Ha') Hrest) as [-> ->]. auto.
Qed.

End PoolKey.

(** X4.  The key of a pool is the two names joined by "-".  For names
    without "-" in the first component the key determines the pair, so the
    pools of two different pairs never share an entry, and the key of (a, b)
    differs from the key of (b, a) when a and b differ: registering the pool
    of (a, b) leaves the entry of (b, a) as it was.  With a "-" inside a
    name two different pairs can share one key. *)
Theorem pool_key_determines_pair (a b a' b' : string) (x y : Z) (w : World) :
  (dash_free a = true -> dash_free a' = true ->
   pool_key a b = pool_key a' b' -> a = a' /\ b = b') /\
  (dash_free a = true -> dash_free b = true -> a <> b ->
   pool_key a b <> pool_key b a /\
   liquidityPools (swapSystem (exec (AddLiquidityPool a b x y) w)) !! pool_key b a
   = liquidityPools (swapSystem w) !! pool_key b a) /\
  pool_key "a-b" "c" = pool_key "a" "b-c".
Proof.
  split; [apply pool_key_inj |].
  split; [| reflexivity].
  intros Ha Hb Hne.
  assert (Hkey : pool_key a b <> pool_key b a).
  { intros Heq. apply pool_key_inj in Heq; try assumption. destruct Heq. contradiction. }
  split; [exact Hkey |].
  destruct (exec_addLiquidityPool_cases a b x y w) as [-> | (ra & rb & _ & _ & ->)];
    [reflexivity |].
  cbn [swapSystem liquidityPools]. apply lookup_insert_ne. exact Hkey.
Qed.

Lemma pool_key_determines_pair_witness :
  ("A" = "A" /\ "B" = "B") /\
  pool_key "A" "B" <> pool_key "B" "A" /\
  liquidityPools (swapSystem (exec (AddLiquidityPool "A" "B" 1 2) funded)) !! pool_key "B" "A"
  = liquidityPools (swapSystem funded) !! pool_key "B" "A".
Proof.
  destruct (pool_key_determines_pair "A" "B" "A" "B" 1 2 funded) as (Hinj & Hdir & _).
  split.
  - apply Hinj; reflexivity.
  - apply Hdir; [reflexivity | reflexivity | discriminate].
Defined.

(** ** Names of the token objects *)

Section Names.

Lemma name_deref_credit r r' v st : name (deref (credit r v st) r') = name (deref st r').
Proof. apply name_deref_set_balance. Qed.

Lemma name_deref_debit r r' v st : name (deref (debit r v st) r') = name (deref st r').
Proof. apply name_deref_set_balance. Qed.

Lemma named_init : named_world Registry.init.
Proof. intros n r H. simpl in H. rewrite lookup_empty in H. discriminate. Qed.

Lemma named_addToken n w :
  wf_world w -> named_world w -> named_world (Registry.addToken n w).
Proof.
  intros [Hwf _] Hnamed m r. rewrite tokens_addToken, store_addToken.
  intros Hlook. apply lookup_insert_Some in Hlook.
  destruct Hlook as [(<- & <-) | (_ & Hold)].
  - rewrite deref_alloc_new. reflexivity.
  - rewrite deref_alloc_old by (apply (Hwf m r Hold)). apply Hnamed, Hold.
Qed.

Lemma named_addLiquidityPool a b x y w :
  named_world w -> named_world (exec (AddLiquidityPool a b x y) w).
Proof.
  intros Hnamed.
  destruct (exec_addLiquidityPool_cases a b x y w) as [-> | (ra & rb & _ & _ & ->)];
    [exact Hnamed |].
  intros m r. cbn [swapSystem tokens store]. apply Hnamed.
Qed.

Lemma named_addLiquidity a b x y w :
  named_world w -> named_world (exec (AddLiquidity a b x y) w).
Proof.
  intros Hnamed.
  destruct (liquidityPools (swapSystem w) !! pool_key a b) as [p |] eqn:Hp.
  - rewrite (exec_addLiquidity_resolved w a b x y p Hp), addLiquidity_store.
    intros m r. cbn [swapSystem tokens store]. rewrite !name_deref_credit.
    apply Hnamed.
  - rewrite exec_addLiquidity_unresolved by assumption. exact Hnamed.
Qed.

Lemma named_exec c w : wf_world w -> named_world w -> named_world (exec c w).
Proof.
  intros Hwf Hnamed.
  destruct c as [n | a b x y | a b x y | a b f t x | n | a b];
    [apply named_addToken; assumption | apply named_addLiquidityPool, Hnamed
    | apply named_addLiquidity, Hnamed | | exact Hnamed | exact Hnamed].
  cbn [exec].
  destruct (swapTheToken_cases a b f t x w)
    as [-> | [-> | (p & rf & rt & out & _ & _ & _ & _ & _ & msg & ->)]];
    [assumption | assumption |].
  intros m r. cbn [settle swapSystem tokens store].
  rewrite deref_generateEvent, name_deref_credit, name_deref_debit.
  apply Hnamed.
Qed.

Lemma consistent_init : consistent Registry.init.
Proof. split; [apply wf_init | split; [apply u64_init | apply named_init]]. Qed.

Lemma consistent_exec c w : call_ok c -> consistent w -> consistent (exec c w).
Proof.
  intros Hc (Hwf & Hu64 & Hnamed).
  split; [apply wf_exec, Hwf |].
  split; [apply u64_exec; assumption | apply named_exec; assumption].
Qed.

Lemma run_consistent cs w : Forall call_ok cs -> consistent w -> consistent (run cs w).
Proof.
  intros Hcs. revert w. induction Hcs as [| c cs Hc _ IH]; intros w Hw.
  - exact Hw.
  - simpl. apply IH, consistent_exec; assumption.
Qed.

(** Two names never share an object. *)
Lemma named_distinct w n m rn rm :
  named_world w ->
  tokens (swapSystem w) !! n = Some rn ->
  tokens (swapSystem w) !! m = Some rm ->
  n <> m -> rn <> rm.
Proof.
  intros Hnamed Hn Hm Hne Heq. subst rm.
  apply Hne. rewrite <- (Hnamed n rn Hn). apply (Hnamed m rn Hm).
Qed.

Lemma warm_consistent : consistent warm.
Proof.
  apply run_consistent; [| apply consistent_init].
  repeat constructor; vm_compute; discriminate.
Qed.

End Names.

(** X5.  After any sequence of registry calls with u64 arguments, from the
    empty registry: every reference held by the token map or by a pool
    points to an allocated token object, the reserves of every pool are in
    [0, 2^64), the object found under a name carries that name, and two
    different names never resolve to the same object. *)
Theorem registry_stays_consistent (cs : list Call) :
  Forall call_ok cs ->
  wf_world (run cs Registry.init) /\
  (forall k p, liquidityPools (swapSystem (run cs Registry.init)) !! k = Some p ->
     U64.in_range (reserveA p) /\ U64.in_range (reserveB p)) /\
  named_world (run cs Registry.init) /\
  (forall n m rn rm,
     tokens (swapSystem (run cs Registry.init)) !! n = Some rn ->
     tokens (swapSystem (run cs Registry.init)) !! m = Some rm ->
     n <> m -> rn <> rm).
Proof.
  intros Hcs.
  destruct (run_consistent cs Registry.init Hcs consistent_init)
    as (Hwf & [_ Hres] & Hnamed).
  split; [exact Hwf |]. split; [exact Hres |]. split; [exact Hnamed |].
  intros n m rn rm. apply named_distinct, Hnamed.
Qed.

Lemma registry_stays_consistent_witness :
  wf_world (run session Registry.init) /\ named_world (run session Registry.init).
Proof.
  destruct (registry_stays_consistent session) as (Hwf & _ & Hnamed & _).
  - unfold session. repeat constructor; vm_compute; discriminate.
  - split; [exact Hwf | exact Hnamed].
Defined.

(** ** A swap that goes through *)

Section SwapSuccess.

Lemma swapTokens_success this rf rt amount st out :
  (balance (deref st rf) <? amount) = false ->
  Pool.calculateSwapAmountOut this rf rt amount st = Returns out ->
  out <> 0 ->
  Pool.swapTokens this rf rt amount st
  = Returns (mkPool (tokenA this) (tokenB this)
               (U64.add (reserveA this) amount) (U64.sub (reserveB this) out),
             generateEvent
               (Pool.swap_message amount (name (deref st rf)) out (name (deref st rt)))
               (credit rt out (debit rf amount st))).
Proof.
  intros Hguard Hout Hnz. unfold Pool.swapTokens. rewrite Hguard, Hout. simpl.
  destruct (Z.eqb_spec out 0) as [Hz | _]; [contradiction |].
  rewrite !name_deref_credit, !name_deref_debit. reflexivity.
Qed.

Lemma swapTheToken_success w a b f t amount p rf rt out :
  liquidityPools (swapSystem w) !! pool_key a b = Some p ->
  tokens (swapSystem w) !! f = Some rf ->
  tokens (swapSystem w) !! t = Some rt ->
  (balance (deref (store w) rf) <? amount) = false ->
  Pool.calculateSwapAmountOut p rf rt amount (store w) = Returns out ->
  out <> 0 ->
  Registry.swapTheToken a b f t amount w
  = Returns
      (mkWorld
         (mkSwapToken (tokens (swapSystem w))
            (<[pool_key a b :=
                 mkPool (tokenA p) (tokenB p)
                   (U64.add (reserveA p) amount) (U64.sub (reserveB p) out)]>
               (liquidityPools (swapSystem w))))
         (generateEvent
            (Pool.swap_message amount (name (deref (store w) rf)) out
               (name (deref (store w) rt)))
            (credit rt out (debit rf amount (store w))))).
Proof.
  intros Hp Hf Ht Hguard Hout Hnz.
  rewrite (swapTheToken_resolved w a b f t amount p rf rt Hp Hf Ht).
  rewrite (swapTokens_success p rf rt amount (store w) out Hguard Hout Hnz).
  reflexivity.
Qed.

Lemma getTokenBalance_value w n r v :
  tokens (swapSystem w) !! n = Some r ->
  Registry.getTokenBalance n w = Returns v ->
  balance (deref (store w) r) = v.
Proof.
  intros Hn Hv. rewrite (getTokenBalance_resolved w n r Hn) in Hv.
  injection Hv as <-. reflexivity.
Qed.

End SwapSuccess.

(** X6.  In a consistent world, a swap between two different resolved names
    through a resolved pool, with amount <= fromToken.balance and a computed
    amountOut other than 0, returns and: the balance read under the from
    name drops by exactly amount, the balance read under the to name grows by
    amountOut (modulo 2^64), the pool keeps its tokens and has
    reserveA + amount and reserveB - amountOut (modulo 2^64) whatever the two
    names are, the token map is unchanged, and one event
    "Swapped <amount> <from> for <amountOut> <to>" is appended. *)
Theorem successful_swap (w : World) (a b f t : string) (amount out bf bt : Z)
    (p : LiquidityPool) (rf rt : ref) :
  consistent w ->
  f <> t ->
  liquidityPools (swapSystem w) !! pool_key a b = Some p ->
  tokens (swapSystem w) !! f = Some rf ->
  tokens (swapSystem w) !! t = Some rt ->
  Registry.getTokenBalance f w = Returns bf ->
  Registry.getTokenBalance t w = Returns bt ->
  0 <= amount <= bf ->
  Pool.calculateSwapAmountOut p rf rt amount (store w) = Returns out ->
  out <> 0 ->
  exists w',
    Registry.swapTheToken a b f t amount w = Returns w' /\
    Registry.getTokenBalance f w' = Returns (bf - amount) /\
    Registry.getTokenBalance t w' = Returns (U64.add bt out) /\
    liquidityPools (swapSystem w') !! pool_key a b
    = Some (mkPool (tokenA p) (tokenB p)
              (U64.add (reserveA p) amount) (U64.sub (reserveB p) out)) /\
    tokens (swapSystem w') = tokens (swapSystem w) /\
    events (store w') = events (store w) ++ [Pool.swap_message amount f out t].
Proof.
  intros (Hwf & [Hbal _] & Hnamed) Hft Hp Hf Ht Hbf Hbt Hamount Hout Hnz.
  apply (getTokenBalance_value w f rf bf Hf) in Hbf.
  apply (getTokenBalance_value w t rt bt Ht) in Hbt. subst bf bt.
  assert (Hne : rf <> rt) by (apply (named_distinct w f t); assumption).
  destruct Hwf as [Hrefs _].
  pose proof (Hrefs f rf Hf) as Hlf. pose proof (Hrefs t rt Ht) as Hlt.
  pose proof (balances_in_range_deref (store w) rf Hbal) as Hrange.
  eexists. split.
  - apply (swapTheToken_success w a b f t amount p rf rt out); try assumption.
    apply Z.ltb_ge. lia.
  - rewrite (getTokenBalance_resolved _ f rf) by exact Hf.
    rewrite (getTokenBalance_resolved _ t rt) by exact Ht.
    cbn [swapSystem tokens liquidityPools store].
    rewrite !deref_generateEvent.
    rewrite (deref_credit_ne rt rf) by congruence.
    rewrite balance_debit_eq by assumption.
    rewrite balance_credit_eq by (rewrite length_debit; assumption).
    rewrite deref_debit_ne by assumption.
    rewrite sub_exact by (try assumption; lia).
    rewrite lookup_insert_eq, (Hnamed f rf Hf), (Hnamed t rt Ht).
    repeat split; reflexivity.
Qed.

Lemma successful_swap_witness :
  exists w',
    Registry.swapTheToken "A" "B" "A" "B" 100 warm = Returns w' /\
    Registry.getTokenBalance "A" w' = Returns (200 - 100) /\
    Registry.getTokenBalance "B" w' = Returns (U64.add 400 199) /\
    liquidityPools (swapSystem w') !! pool_key "A" "B"
    = Some (mkPool 0%nat 1%nat (U64.add 300 100) (U64.sub 600 199)) /\
    tokens (swapSystem w') = tokens (swapSystem warm) /\
    events (store w') = events (store warm) ++ [Pool.swap_message 100 "A" 199 "B"].
Proof.
  apply (successful_swap warm "A" "B" "A" "B" 100 199 200 400
           (mkPool 0%nat 1%nat 300 600) 0%nat 1%nat).
  - apply warm_consistent.
  - discriminate.
  - reflexivity.
  - reflexivity.
  - reflexivity.
  - reflexivity.
  - reflexivity.
  - vm_compute. split; discriminate.
  - reflexivity.
  - discriminate.
Defined.

(** X7.  A token may be swapped for itself: with the same resolved name on
    both sides the one balance first drops by amount and then grows by
    amountOut, and the reserves of the pool move as in any other swap. *)
Theorem swap_token_for_itself (w : World) (a b f : string) (amount out bf : Z)
    (p : LiquidityPool) (rf : ref) :
  consistent w ->
  liquidityPools (swapSystem w) !! pool_key a b = Some p ->
  tokens (swapSystem w) !! f = Some rf ->
  Registry.getTokenBalance f w = Returns bf ->
  0 <= amount <= bf ->
  Pool.calculateSwapAmountOut p rf rf amount (store w) = Returns out ->
  out <> 0 ->
  exists w',
    Registry.swapTheToken a b f f amount w = Returns w' /\
    Registry.getTokenBalance f w' = Returns (U64.add (bf - amount) out) /\
    liquidityPools (swapSystem w') !! pool_key a b
    = Some (mkPool (tokenA p) (tokenB p)
              (U64.add (reserveA p) amount) (U64.sub (reserveB p) out)).
Proof.
  intros (Hwf & [Hbal _] & _) Hp Hf Hbf Hamount Hout Hnz.
  apply (getTokenBalance_value w f rf bf Hf) in Hbf. subst bf.
  destruct Hwf as [Hrefs _]. pose proof (Hrefs f rf Hf) as Hlf.
  pose proof (balances_in_range_deref (store w) rf Hbal) as Hrange.
  eexists. split.
  - apply (swapTheToken_success w a b f f amount p rf rf out); try assumption.
    apply Z.ltb_ge. lia.
  - rewrite (getTokenBalance_resolved _ f rf) by exact Hf.
    cbn [swapSystem tokens liquidityPools store].
    rewrite deref_generateEvent.
    rewrite balance_credit_eq by (rewrite length_debit; assumption).
    rewrite balance_debit_eq by assumption.
    rewrite sub_exact by (try assumption; lia).
    rewrite lookup_insert_eq. split; reflexivity.
Qed.

Lemma swap_token_for_itself_witness :
  exists w',
    Registry.swapTheToken "A" "B" "A" "A" 100 warm = Returns w' /\
    Registry.getTokenBalance "A" w' = Returns (U64.add (200 - 100) 199) /\
    liquidityPools (swapSystem w') !! pool_key "A" "B"
    = Some (mkPool 0%nat 1%nat (U64.add 300 100) (U64.sub 600 199)).
Proof.
  apply (swap_token_for_itself warm "A" "B" "A" 100 199 200
           (mkPool 0%nat 1%nat 300 600) 0%nat).
  - apply warm_consistent.
  - reflexivity.
  - reflexivity.
  - reflexivity.
  - vm_compute. split; discriminate.
  - reflexivity.
  - discriminate.
Defined.

(** ** Bounds on the swap output *)

(** X8.  When neither amountIn * 997 * reserveB nor
    fromToken.balance * 1000 + amountIn * 997 reaches 2^64 and the divisor is
    not zero, calculateSwapAmountOut returns an amount between 0 and
    reserveB, so the subtraction reserveB - amountOut of swapTokens does not
    wrap around; the amount is strictly below reserveB when
    fromToken.balance and reserveB are positive. *)
Theorem swap_output_within_reserve (this : LiquidityPool) (fromToken toToken : ref)
    (amountIn : Z) (st : Store) :
  0 <= amountIn ->
  U64.in_range (reserveB this) ->
  U64.in_range (balance (deref st fromToken)) ->
  amountIn * 997 * reserveB this < U64.modulus ->
  balance (deref st fromToken) * 1000 + amountIn * 997 < U64.modulus ->
  0 < balance (deref st fromToken) * 1000 + amountIn * 997 ->
  exists out,
    Pool.calculateSwapAmountOut this fromToken toToken amountIn st = Returns out /\
    0 <= out <= reserveB this /\
    U64.sub (reserveB this) out = reserveB this - out /\
    (0 < balance (deref st fromToken) -> 0 < reserveB this -> out < reserveB this).
Proof.
  intros Ha Hr Hb Hnum Hden Hpos. unfold U64.in_range in *.
  set (bal := balance (deref st fromToken)) in *.
  set (rB := reserveB this) in *.
  eexists. split; [apply calculateSwapAmountOut_exact; fold bal rB; lia |].
  fold bal rB.
  assert (Hlow : 0 <= amountIn * 997 * rB / (bal * 1000 + amountIn * 997))
    by (apply Z.div_pos; nia).
  assert (Hup : amountIn * 997 * rB / (bal * 1000 + amountIn * 997) <= rB)
    by (apply Z.div_le_upper_bound; nia).
  split; [lia |]. split.
  - apply wrap_small. unfold U64.in_range. lia.
  - intros Hbal HrB. apply Z.div_lt_upper_bound; nia.
Qed.

Lemma swap_output_within_reserve_witness :
  exists out,
    Pool.calculateSwapAmountOut (mkPool 0%nat 1%nat 300 600) 0%nat 1%nat 100 (store warm)
    = Returns out /\
    0 <= out <= 600 /\
    U64.sub 600 out = 600 - out /\
    out < 600.
Proof.
  destruct (swap_output_within_reserve (mkPool 0%nat 1%nat 300 600) 0%nat 1%nat 100
              (store warm)) as (out & Hout & Hbound & Hsub & Hstrict).
  - discriminate.
  - vm_compute. split; [discriminate | reflexivity].
  - vm_compute. split; [discriminate | reflexivity].
  - reflexivity.
  - reflexivity.
  - reflexivity.
  - exists out. split; [exact Hout |]. split; [exact Hbound |].
    split; [exact Hsub |]. apply Hstrict; reflexivity.
Defined.

(** X9.  For a fixed amountIn and without overflow, calculateSwapAmountOut
    never decreases when reserveB grows and never increases when
    fromToken.balance grows. *)
Theorem swap_output_by_reserve_and_balance (this this' : LiquidityPool)
    (fromToken fromToken' toToken toToken' : ref) (amountIn : Z) (st st' : Store) :
  0 <= amountIn ->
  0 <= reserveB this <= reserveB this' ->
  0 <= balance (deref st' fromToken') <= balance (deref st fromToken) ->
  amountIn * 997 * reserveB this' < U64.modulus ->
  balance (deref st fromToken) * 1000 + amountIn * 997 < U64.modulus ->
  0 < balance (deref st' fromToken') * 1000 + amountIn * 997 ->
  exists out out',
    Pool.calculateSwapAmountOut this fromToken toToken amountIn st = Returns out /\
    Pool.calculateSwapAmountOut this' fromToken' toToken' amountIn st' = Returns out' /\
    out <= out'.
Proof.
  intros Ha Hr Hb Hnum Hden Hpos.
  set (bal := balance (deref st fromToken)) in *.
  set (bal' := balance (deref st' fromToken')) in *.
  set (rB := reserveB this) in *.
  set (rB' := reserveB this') in *.
  assert (Hnum1 : amountIn * 997 * rB <= amountIn * 997 * rB') by nia.
  eexists _, _.
  split; [apply calculateSwapAmountOut_exact; fold bal rB; lia |].
  split; [apply calculateSwapAmountOut_exact; fold bal' rB'; lia |].
  fold bal bal' rB rB'. apply div_le_cross; nia.
Qed.

Lemma swap_output_by_reserve_and_balance_witness :
  exists out out',
    Pool.calculateSwapAmountOut (mkPool 0%nat 1%nat 100 200) 1%nat 0%nat 100 (store funded)
    = Returns out /\
    Pool.calculateSwapAmountOut (mkPool 0%nat 1%nat 300 600) 0%nat 1%nat 100 (store warm)
    = Returns out' /\
    out <= out'.
Proof.
  apply (swap_output_by_reserve_and_balance (mkPool 0%nat 1%nat 100 200)
           (mkPool 0%nat 1%nat 300 600) 1%nat 0%nat 0%nat 1%nat 100
           (store funded) (store warm)); vm_compute;
    try reflexivity; try discriminate; split; discriminate.
Defined.

(** ** The price is stopped by the lookup only *)

(** X10.  The division of calculatePrice never stops it: on a pool it
    returns for every state, its reserveB being tested first.  Through the
    registry it returns the price of the pool registered for the pair, and
    it is stopped exactly when the pair has no pool.  In a world whose stored
    values are u64 the price is a u64 as well. *)
Theorem calculatePrice_stops_only_on_lookup (a b : string) (w : World)
    (this : LiquidityPool) (st : Store) :
  (exists price, Pool.calculatePrice this st = Returns price) /\
  (liquidityPools (swapSystem w) !! pool_key a b = None ->
   Registry.calculatePrice a b w = Trap) /\
  (forall p, liquidityPools (swapSystem w) !! pool_key a b = Some p ->
     exists price,
       Registry.calculatePrice a b w = Returns price /\
       Pool.calculatePrice p (store w) = Returns price /\
       (u64_world w -> U64.in_range price)).
Proof.
  split; [apply calculatePrice_returns |].
  split; [apply calculatePrice_unresolved |].
  intros p Hp. rewrite (calculatePrice_resolved w a b p Hp).
  destruct (decide (reserveB p = 0)) as [Hz | Hnz].
  - exists 0. split; [apply calculatePrice_empty_reserve, Hz |].
    split; [apply calculatePrice_empty_reserve, Hz |].
    intros _. split; [lia | apply modulus_pos].
  - eexists. split; [apply calculatePrice_wrapped, Hnz |].
    split; [apply calculatePrice_wrapped, Hnz |].
    intros [_ Hres]. destruct (Hres _ _ Hp) as [_ HrB].
    pose proof (mul_in_range (reserveA p) (balance (deref (store w) (tokenB p))))
      as Hm.
    unfold U64.in_range in *. split.
    + apply Z.div_pos; lia.
    + apply Z.div_lt_upper_bound; nia.
Qed.

Lemma calculatePrice_stops_only_on_lookup_witness :
  Registry.calculatePrice "B" "A" warm = Trap /\
  exists price,
    Registry.calculatePrice "A" "B" warm = Returns price /\
    Pool.calculatePrice (mkPool 0%nat 1%nat 300 600) (store warm) = Returns price /\
    U64.in_range price.
Proof.
  destruct (calculatePrice_stops_only_on_lookup "B" "A" warm (mkPool 0%nat 1%nat 300 600)
              (store warm)) as (_ & Hnone & _).
  destruct (calculatePrice_stops_only_on_lookup "A" "B" warm (mkPool 0%nat 1%nat 300 600)
              (store warm)) as (_ & _ & Hsome).
  split; [apply Hnone; reflexivity |].
  destruct (Hsome (mkPool 0%nat 1%nat 300 600)) as (price & Hreg & Hpool & Hrange);
    [reflexivity |].
  exists price. split; [exact Hreg |]. split; [exact Hpool |].
  apply Hrange. destruct warm_consistent as (_ & Hu64 & _). exact Hu64.
Defined.

(** ** Nothing is ever removed *)

Section Keeps.

Lemma keeps_refl w : keeps w w.
Proof. repeat split; auto. Qed.

Lemma keeps_trans w1 w2 w3 : keeps w1 w2 -> keeps w2 w3 -> keeps w1 w3.
Proof.
  intros (Ht1 & Hp1 & Ho1 & He1) (Ht2 & Hp2 & Ho2 & He2).
  split; [auto |]. split; [auto |]. split.
  - intros r Hr. destruct (Ho1 r Hr) as [Hr2 Hn1]. destruct (Ho2 r Hr2) as [Hr3 Hn2].
    split; [assumption | congruence].
  - etrans; eassumption.
Qed.

Lemma keeps_addToken n w : keeps w (Registry.addToken n w).
Proof.
  split; [| split; [| split]].
  - intros m Hm. rewrite tokens_addToken. apply lookup_insert_is_Some.
    destruct (decide (n = m)); auto.
  - intros k Hk. exact Hk.
  - intros r Hr. rewrite store_addToken. split.
    + unfold alloc. simpl. rewrite length_app. lia.
    + rewrite deref_alloc_old by assumption. reflexivity.
  - reflexivity.
Qed.

Lemma keeps_addLiquidityPool a b x y w : keeps w (exec (AddLiquidityPool a b x y) w).
Proof.
  destruct (exec_addLiquidityPool_cases a b x y w) as [-> | (ra & rb & _ & _ & ->)];
    [apply keeps_refl |].
  split; [| split; [| split]]; cbn [swapSystem tokens liquidityPools store].
  - auto.
  - intros k Hk. apply lookup_insert_is_Some.
    destruct (decide (pool_key a b = k)); auto.
  - auto.
  - reflexivity.
Qed.

Lemma keeps_addLiquidity a b x y w : keeps w (exec (AddLiquidity a b x y) w).
Proof.
  destruct (liquidityPools (swapSystem w) !! pool_key a b) as [p |] eqn:Hp.
  - rewrite (exec_addLiquidity_resolved w a b x y p Hp), addLiquidity_store.
    split; [| split; [| split]]; cbn [swapSystem tokens liquidityPools store].
    + auto.
    + intros k Hk. apply lookup_insert_is_Some.
      destruct (decide (pool_key a b = k)); auto.
    + intros r Hr. rewrite !length_credit, !name_deref_credit. auto.
    + reflexivity.
  - rewrite exec_addLiquidity_unresolved by assumption. apply keeps_refl.
Qed.

Lemma keeps_exec c w : keeps w (exec c w).
Proof.
  destruct c as [n | a b x y | a b x y | a b f t x | n | a b];
    [apply keeps_addToken | apply keeps_addLiquidityPool | apply keeps_addLiquidity
    | | apply keeps_refl | apply keeps_refl].
  cbn [exec].
  destruct (swapTheToken_cases a b f t x w)
    as [-> | [-> | (p & rf & rt & out & _ & _ & _ & _ & _ & msg & ->)]];
    [apply keeps_refl | apply keeps_refl |].
  split; [| split; [| split]]; cbn [settle swapSystem tokens liquidityPools store].
  - auto.
  - intros k Hk. apply lookup_insert_is_Some.
    destruct (decide (pool_key a b = k)); auto.
  - intros r Hr. cbn [generateEvent objects].
    rewrite length_credit, length_debit. split; [assumption |].
    rewrite deref_generateEvent, name_deref_credit, name_deref_debit. reflexivity.
  - cbn [generateEvent events]. apply prefix_app_r. reflexivity.
Qed.

Lemma keeps_run cs w : keeps w (run cs w).
Proof.
  revert w. induction cs as [| c cs IH]; intros w.
  - apply keeps_refl.
  - simpl. eapply keeps_trans; [apply keeps_exec | apply IH].
Qed.

End Keeps.

(** X11.  No registry call removes anything: after any further sequence of
    calls, a name that resolved still resolves, a pool key that resolved
    still resolves, every token object is still in the store under the name
    it was created with, and the events emitted so far are still the first
    events of the sink. *)
Theorem nothing_is_removed (cs : list Call) (w : World) (n k : string) (r : ref) :
  (is_Some (tokens (swapSystem w) !! n) ->
   is_Some (tokens (swapSystem (run cs w)) !! n)) /\
  (is_Some (liquidityPools (swapSystem w) !! k) ->
   is_Some (liquidityPools (swapSystem (run cs w)) !! k)) /\
  ((r < length (objects (store w)))%nat ->
   (r < length (objects (store (run cs w))))%nat /\
   name (deref (store (run cs w)) r) = name (deref (store w) r)) /\
  events (store w) `prefix_of` events (store (run cs w)).
Proof.
  destruct (keeps_run cs w) as (Ht & Hp & Ho & He).
  split; [apply Ht |]. split; [apply Hp |]. split; [apply Ho | exact He].
Qed.

Lemma nothing_is_removed_witness :
  is_Some (tokens (swapSystem (run session warm)) !! "A") /\
  is_Some (liquidityPools (swapSystem (run session warm)) !! "A-B") /\
  name (deref (store (run session warm)) 0%nat) = name (deref (store warm) 0%nat).
Proof.
  destruct (nothing_is_removed session warm "A" "A-B" 0%nat) as (Ht & Hp & Ho & _).
  split; [apply Ht; eexists; reflexivity |].
  split; [apply Hp; eexists; reflexivity |].
  apply Ho. vm_compute. lia.
Defined.

(** ** Events *)

(** X12.  Only a swap emits.  addToken leaves the event sink as it was, and
    so do addLiquidityPool and addLiquidity whenever they return; a
    swapTheToken that returns either leaves the whole world as it was or
    appends exactly one event. *)
Theorem only_swaps_emit (n a b f t : string) (x y : Z) (w w' : World) :
  events (store (Registry.addToken n w)) = events (store w) /\
  (Registry.addLiquidityPool a b x y w = Returns w' ->
   events (store w') = events (store w)) /\
  (Registry.addLiquidity a b x y w = Returns w' ->
   events (store w') = events (store w)) /\
  events (store (exec (AddLiquidityPool a b x y) w)) = events (store w) /\
  events (store (exec (AddLiquidity a b x y) w)) = events (store w) /\
  (Registry.swapTheToken a b f t x w = Returns w' ->
   w' = w \/ exists msg, events (store w') = events (store w) ++ [msg]).
Proof.
  assert (Hpool : events (store (exec (AddLiquidityPool a b x y) w)) = events (store w)).
  { destruct (exec_addLiquidityPool_cases a b x y w) as [-> | (ra & rb & _ & _ & ->)];
      reflexivity. }
  assert (Hadd : events (store (exec (AddLiquidity a b x y) w)) = events (store w)).
  { destruct (liquidityPools (swapSystem w) !! pool_key a b) as [p |] eqn:Hp.
    - rewrite (exec_addLiquidity_resolved w a b x y p Hp), addLiquidity_store.
      reflexivity.
    - rewrite exec_addLiquidity_unresolved by assumption. reflexivity. }
  split; [reflexivity |].
  split; [intros Hret; cbn [exec] in Hpool; rewrite Hret in Hpool; exact Hpool |].
  split; [intros Hret; cbn [exec] in Hadd; rewrite Hret in Hadd; exact Hadd |].
  split; [exact Hpool |]. split; [exact Hadd |].
  intros Hswap.
  destruct (swapTheToken_cases a b f t x w)
    as [Htrap | [Hsame | (p & rf & rt & out & _ & _ & _ & _ & _ & msg & Hdone)]].
  - rewrite Htrap in Hswap. discriminate.
  - rewrite Hsame in Hswap. injection Hswap as <-. left. reflexivity.
  - rewrite Hdone in Hswap. injection Hswap as <-. right. exists msg. reflexivity.
Qed.

Lemma only_swaps_emit_witness :
  exists w',
    Registry.swapTheToken "A" "B" "A" "B" 100 warm = Returns w' /\
    (w' = warm \/ exists msg, events (store w') = events (store warm) ++ [msg]).
Proof.
  eexists. split; [reflexivity |].
  eapply (only_swaps_emit "A" "A" "B" "A" "B" 100 0 warm). reflexivity.
Defined.

(** ** Swaps that cannot pay *)

Section IdleSwaps.

Lemma swapTokens_nothing_to_pay this rf rt amount st :
  U64.mul (U64.mul amount 997) (reserveB this) = 0 ->
  Pool.swapTokens this rf rt amount st = Trap \/
  Pool.swapTokens this rf rt amount st = Returns (this, st).
Proof.
  intros Hnum.
  destruct (Z.ltb_spec (balance (deref st rf)) amount) as [Hlt | Hge].
  - right. apply swapTokens_insufficient, Hlt.
  - assert (Hcalc : Pool.calculateSwapAmountOut this rf rt amount st = Trap \/
                    Pool.calculateSwapAmountOut this rf rt amount st = Returns 0).
    { unfold Pool.calculateSwapAmountOut. rewrite Hnum. unfold div_u.
      destruct (_ =? 0); [left | right]; reflexivity. }
    destruct Hcalc as [Htrap | Hzero].
    + left. unfold Pool.swapTokens.
      destruct (balance (deref st rf) <? amount) eqn:Hguard;
        [apply Z.ltb_lt in Hguard; lia |].
      rewrite Htrap. reflexivity.
    + right. apply swapTokens_zero_output, Hzero.
Qed.

End IdleSwaps.

(** X13.  A swap of amount 0, and any swap through a pool whose reserveB is
    0, never changes anything: for every world and all names the call is
    either stopped, by a lookup or by the division, or returns the world as
    it was. *)
Theorem idle_swap_changes_nothing (a b f t : string) (amount : Z) (w : World) :
  amount = 0 \/
  (exists p, liquidityPools (swapSystem w) !! pool_key a b = Some p /\ reserveB p = 0) ->
  Registry.swapTheToken a b f t amount w = Trap \/
  Registry.swapTheToken a b f t amount w = Returns w.
Proof.
  intros Hidle.
  destruct (liquidityPools (swapSystem w) !! pool_key a b) as [p |] eqn:Hp;
    [| left; apply swapTheToken_unresolved; auto].
  destruct (tokens (swapSystem w) !! f) as [rf |] eqn:Hf;
    [| left; apply swapTheToken_unresolved; auto].
  destruct (tokens (swapSystem w) !! t) as [rt |] eqn:Ht;
    [| left; apply swapTheToken_unresolved; auto].
  assert (Hnum : U64.mul (U64.mul amount 997) (reserveB p) = 0).
  { destruct Hidle as [-> | (q & Hq & Hz)].
    - reflexivity.
    - injection Hq as <-. rewrite Hz. unfold U64.mul. rewrite Z.mul_0_r. reflexivity. }
  destruct (swapTokens_nothing_to_pay p rf rt amount (store w) Hnum) as [Htrap | Hsame].
  - left. rewrite (swapTheToken_resolved w a b f t amount p rf rt Hp Hf Ht), Htrap.
    reflexivity.
  - right. apply (swapTheToken_refused w a b f t amount p rf rt); assumption.
Qed.

Lemma idle_swap_changes_nothing_witness :
  Registry.swapTheToken "A" "B" "A" "B" 0 warm = Trap \/
  Registry.swapTheToken "A" "B" "A" "B" 0 warm = Returns warm.
Proof.
  apply (idle_swap_changes_nothing "A" "B" "A" "B" 0 warm). left. reflexivity.
Defined.

(** ** What adding liquidity credits *)

Section Deposits.

Lemma set_balance_same r st :
  set_balance r (balance (deref st r)) st = st.
Proof.
  unfold set_balance, deref. destruct st as [objs evs].
  cbn [objects events]. f_equal.
  destruct (objs !! r) as [tok |] eqn:Hr.
  - apply list_insert_id. destruct tok. exact Hr.
  - apply list_insert_ge. apply lookup_ge_None. exact Hr.
Qed.

Lemma credit_zero r st : balances_in_range st -> credit r 0 st = st.
Proof.
  intros Hst. unfold credit, U64.add. rewrite Z.add_0_r, wrap_small.
  - apply set_balance_same.
  - apply balances_in_range_deref, Hst.
Qed.

End Deposits.

(** X14.  addLiquidity looks the pool up before it writes: on a pair without
    a pool the call is stopped.  On a pair with a pool, in a world whose
    references are valid, it returns and has credited the two token objects
    the pool was built with and both reserves, modulo 2^64: when the two
    objects differ each balance has grown by its amount, when the pool was
    built on one object twice that balance has grown by amountA + amountB;
    the token map and the event sink are unchanged. *)
Theorem addLiquidity_credits (a b : string) (x y : Z) (w : World) (p : LiquidityPool) :
  wf_world w ->
  (liquidityPools (swapSystem w) !! pool_key a b = None ->
   Registry.addLiquidity a b x y w = Trap) /\
  (liquidityPools (swapSystem w) !! pool_key a b = Some p ->
   exists w',
     Registry.addLiquidity a b x y w = Returns w' /\
     liquidityPools (swapSystem w') !! pool_key a b
     = Some (mkPool (tokenA p) (tokenB p)
               (U64.add (reserveA p) x) (U64.add (reserveB p) y)) /\
     tokens (swapSystem w') = tokens (swapSystem w) /\
     events (store w') = events (store w) /\
     (tokenA p <> tokenB p ->
      balance (deref (store w') (tokenA p))
      = U64.add (balance (deref (store w) (tokenA p))) x /\
      balance (deref (store w') (tokenB p))
      = U64.add (balance (deref (store w) (tokenB p))) y) /\
     (tokenA p = tokenB p ->
      balance (deref (store w') (tokenA p))
      = U64.add (balance (deref (store w) (tokenA p))) (x + y))).
Proof.
  intros [_ Hpools]. split; [apply addLiquidity_unresolved |].
  intros Hp. destruct (Hpools _ _ Hp) as [HA HB].
  rewrite (addLiquidity_resolved w a b x y p Hp), addLiquidity_store, addLiquidity_pool.
  eexists. split; [reflexivity |].
  cbn [swapSystem tokens liquidityPools store].
  split; [apply lookup_insert_eq |]. split; [reflexivity |]. split; [reflexivity |].
  split.
  - intros Hne. split.
    + rewrite deref_credit_ne by congruence. apply balance_credit_eq, HA.
    + rewrite balance_credit_eq by (rewrite length_credit; exact HB).
      rewrite deref_credit_ne by assumption. reflexivity.
  - intros Heq. rewrite <- Heq, credit_credit. apply balance_credit_eq, HA.
Qed.

Lemma addLiquidity_credits_witness :
  Registry.addLiquidity "A" "C" 5 7 warm = Trap /\
  exists w',
    Registry.addLiquidity "A" "B" 5 7 warm = Returns w' /\
    balance (deref (store w') 0%nat) = U64.add (balance (deref (store warm) 0%nat)) 5 /\
    balance (deref (store w') 1%nat) = U64.add (balance (deref (store warm) 1%nat)) 7.
Proof.
  destruct warm_consistent as (Hwf & _ & _).
  destruct (addLiquidity_credits "A" "C" 5 7 warm (mkPool 0%nat 1%nat 300 600) Hwf)
    as [Hnone _].
  destruct (addLiquidity_credits "A" "B" 5 7 warm (mkPool 0%nat 1%nat 300 600) Hwf)
    as [_ Hsome].
  split; [apply Hnone; reflexivity |].
  destruct Hsome as (w' & Hret & _ & _ & _ & Hdiff & _); [reflexivity |].
  exists w'. split; [exact Hret |]. apply Hdiff. discriminate.
Defined.

(** X15.  Adding amounts (0, 0) to any pair, in a world whose stored values
    are u64, changes nothing: the world after the call is the world before
    it, and on a pair with a pool the call returns that very world. *)
Theorem addLiquidity_of_nothing (a b : string) (w : World) :
  u64_world w ->
  exec (AddLiquidity a b 0 0) w = w /\
  (is_Some (liquidityPools (swapSystem w) !! pool_key a b) ->
   Registry.addLiquidity a b 0 0 w = Returns w).
Proof.
  intros [Hbal Hres].
  assert (Hsame : forall p, liquidityPools (swapSystem w) !! pool_key a b = Some p ->
                            Registry.addLiquidity a b 0 0 w = Returns w).
  { intros p Hp.
    rewrite (addLiquidity_resolved w a b 0 0 p Hp), addLiquidity_store, addLiquidity_pool.
    rewrite (credit_zero (tokenA p)) by assumption.
    rewrite (credit_zero (tokenB p)) by assumption.
    destruct (Hres _ _ Hp) as [HrA HrB].
    unfold U64.add. rewrite !Z.add_0_r, !wrap_small by assumption.
    replace (mkPool (tokenA p) (tokenB p) (reserveA p) (reserveB p)) with p
      by (destruct p; reflexivity).
    f_equal. apply store_back_same, Hp. }
  split.
  - destruct (liquidityPools (swapSystem w) !! pool_key a b) as [p |] eqn:Hp;
      [| apply exec_addLiquidity_unresolved; assumption].
    cbn [exec]. rewrite (Hsame p) by reflexivity. reflexivity.
  - intros [p Hp]. apply (Hsame p Hp).
Qed.

Lemma addLiquidity_of_nothing_witness :
  exec (AddLiquidity "A" "B" 0 0) warm = warm /\
  Registry.addLiquidity "A" "B" 0 0 warm = Returns warm.
Proof.
  destruct (addLiquidity_of_nothing "A" "B" warm) as [Hexec Hret].
  - destruct warm_consistent as (_ & Hu64 & _). exact Hu64.
  - split; [exact Hexec |]. apply Hret. eexists. reflexivity.
Defined.

(** ** What a call leaves alone *)

(** X16.  addLiquidity and swapTheToken touch only what they name.  Every
    token object other than the pool's two (for addLiquidity) or other than
    the resolved from and to objects (for a swap) is unchanged; every pool
    other than the one under the named pair's key is unchanged; the token
    map is unchanged.  In particular a swap through a pool moves that pool's
    reserves without touching the pool's own tokens unless they are the ones
    named. *)
Theorem calls_touch_only_what_they_name (a b f t k : string) (x y amount : Z)
    (w w' : World) (r : ref) :
  (forall p, liquidityPools (swapSystem w) !! pool_key a b = Some p ->
     r <> tokenA p -> r <> tokenB p ->
     deref (store (exec (AddLiquidity a b x y) w)) r = deref (store w) r) /\
  (k <> pool_key a b ->
   liquidityPools (swapSystem (exec (AddLiquidity a b x y) w)) !! k
   = liquidityPools (swapSystem w) !! k) /\
  tokens (swapSystem (exec (AddLiquidity a b x y) w)) = tokens (swapSystem w) /\
  (Registry.swapTheToken a b f t amount w = Returns w' ->
   tokens (swapSystem w') = tokens (swapSystem w) /\
   (k <> pool_key a b ->
    liquidityPools (swapSystem w') !! k = liquidityPools (swapSystem w) !! k) /\
   (tokens (swapSystem w) !! f <> Some r -> tokens (swapSystem w) !! t <> Some r ->
    deref (store w') r = deref (store w) r)).
Proof.
  split; [| split; [| split]].
  - intros p Hp HA HB.
    rewrite (exec_addLiquidity_resolved w a b x y p Hp), addLiquidity_store.
    cbn [store]. rewrite !deref_credit_ne by congruence. reflexivity.
  - intros Hk.
    destruct (liquidityPools (swapSystem w) !! pool_key a b) as [p |] eqn:Hp.
    + rewrite (exec_addLiquidity_resolved w a b x y p Hp). cbn [swapSystem liquidityPools].
      apply lookup_insert_ne. congruence.
    + rewrite exec_addLiquidity_unresolved by assumption. reflexivity.
  - destruct (liquidityPools (swapSystem w) !! pool_key a b) as [p |] eqn:Hp.
    + rewrite (exec_addLiquidity_resolved w a b x y p Hp). reflexivity.
    + rewrite exec_addLiquidity_unresolved by assumption. reflexivity.
  - intros Hswap.
    destruct (swapTheToken_cases a b f t amount w)
      as [Htrap | [Hsame | (p & rf & rt & out & _ & Hf & Ht & _ & _ & msg & Hdone)]].
    + rewrite Htrap in Hswap. discriminate.
    + rewrite Hsame in Hswap. injection Hswap as <-. auto.
    + rewrite Hdone in Hswap. injection Hswap as <-.
      cbn [swapSystem tokens liquidityPools store].
      split; [reflexivity |]. split.
      * intros Hk. apply lookup_insert_ne. congruence.
      * intros Hnf Hnt. rewrite deref_generateEvent.
        rewrite deref_credit_ne by congruence.
        rewrite deref_debit_ne by congruence. reflexivity.
Qed.

Lemma calls_touch_only_what_they_name_witness :
  deref (store (exec (AddLiquidity "A" "B" 5 7) (Registry.addToken "C" warm))) 2%nat
  = deref (store (Registry.addToken "C" warm)) 2%nat /\
  exists w',
    Registry.swapTheToken "A" "B" "A" "C" 100 (Registry.addToken "C" warm) = Returns w' /\
    deref (store w') 1%nat = deref (store (Registry.addToken "C" warm)) 1%nat.
Proof.
  split.
  - destruct (calls_touch_only_what_they_name "A" "B" "A" "C" "B-A" 5 7 100
                (Registry.addToken "C" warm) (Registry.addToken "C" warm) 2%nat)
      as (Hadd & _ & _).
    apply (Hadd (mkPool 0%nat 1%nat 300 600)); [reflexivity | discriminate | discriminate].
  - eexists. split; [reflexivity |].
    eapply (calls_touch_only_what_they_name "A" "B" "A" "C" "B-A" 5 7 100
              (Registry.addToken "C" warm) _ 1%nat).
    + reflexivity.
    + discriminate.
    + discriminate.
Defined.

(** * Properties of the entry points *)

(** A pool on two names that have just been added is always registered. *)
Lemma addLiquidityPool_after_addToken (n m : string) (x y : Z) (w : World) :
  n <> m ->
  Registry.addLiquidityPool n m x y (Registry.addToken m (Registry.addToken n w))
  = Returns
      (mkWorld
         (mkSwapToken (tokens (swapSystem (Registry.addToken m (Registry.addToken n w))))
            (<[pool_key n m :=
                 mkPool (length (objects (store w))) (S (length (objects (store w)))) x y]>
               (liquidityPools (swapSystem w))))
         (store (Registry.addToken m (Registry.addToken n w)))).
Proof.
  intros Hne.
  rewrite (addLiquidityPool_resolved n m x y _ (length (objects (store w)))
             (S (length (objects (store w))))).
  - reflexivity.
  - rewrite tokens_addToken, lookup_insert_ne by congruence.
    rewrite tokens_addToken. apply lookup_insert_eq.
  - rewrite tokens_addToken, lookup_insert_eq. f_equal.
    rewrite store_addToken. unfold alloc. simpl. rewrite length_app. simpl. lia.
Qed.

Section EntryFacts.

Variable Args : Type.
Variable nextString : Args -> option (string * Args).
Variable nextU64 : Args -> option (Z * Args).

(** The reader gives u64 values. *)
Hypothesis nextU64_in_range :
  forall a n a', nextU64 a = Some (n, a') -> U64.in_range n.

Local Abbreviation invoke := (Entry.invoke Args nextString nextU64).
Local Abbreviation after := (Entry.after Args nextString nextU64).
Local Abbreviation serve := (Entry.serve Args nextString nextU64).

Ltac read_argument :=
  match goal with
  | |- context [expect ?o] =>
      let H := fresh "Hread" in
      destruct o as [[? ?] |] eqn:H; cbn [expect mbind outcome_bind fst snd]
  end.

Lemma consistent_emit msg w : consistent w -> consistent (emit msg w).
Proof. intros Hw. exact Hw. Qed.

Lemma after_query_unchanged access args w :
  after Entry.ExGetTokenBalance access args w = w /\
  after Entry.ExCalculatePrice access args w = w.
Proof.
  unfold Entry.after, Entry.invoke, Entry.getTokenBalance, Entry.calculatePrice.
  split.
  - read_argument; [| reflexivity].
    destruct (Registry.getTokenBalance _ w); reflexivity.
  - read_argument; [| reflexivity]. read_argument; [| reflexivity].
    destruct (Registry.calculatePrice _ _ w); reflexivity.
Qed.

Lemma after_without_access e args w :
  e <> Entry.ExEvent -> after e false args w = w.
Proof.
  intros He. destruct e; try reflexivity.
  - apply after_query_unchanged.
  - apply after_query_unchanged.
  - contradiction He. reflexivity.
Qed.

Lemma after_as_calls e access args w :
  after e access args w = w \/
  (exists msg, after e access args w = emit msg w) \/
  (exists msg,
     after e access args w
     = run [AddToken "TokenA"; AddToken "TokenB";
            AddLiquidityPool "TokenA" "TokenB" 100 200] (emit msg w)) \/
  (exists c, call_ok c /\ after e access args w = exec c w).
Proof.
  destruct e.
  - unfold Entry.after, Entry.invoke, Entry.constructor.
    destruct access; [| left; reflexivity]. cbn [negb].
    read_argument; [| left; reflexivity].
    right. right. left.
    match goal with
    | |- context [emit ?msg w] => exists msg
    end.
    cbn [run foldl exec].
    rewrite !addLiquidityPool_after_addToken by discriminate. reflexivity.
  - left. apply after_query_unchanged.
  - left. apply after_query_unchanged.
  - unfold Entry.after, Entry.invoke, Entry.addLiquidity.
    destruct access; [| left; reflexivity]. cbn [negb].
    do 4 (read_argument; [| left; reflexivity]).
    right. right. right.
    match goal with
    | |- context [Registry.addLiquidity ?a ?b ?x ?y w] =>
        exists (AddLiquidity a b x y);
        split; [split; eapply nextU64_in_range; eassumption |];
        cbn [exec]; destruct (Registry.addLiquidity a b x y w); reflexivity
    end.
  - unfold Entry.after, Entry.invoke, Entry.swapTokens.
    destruct access; [| left; reflexivity]. cbn [negb].
    do 5 (read_argument; [| left; reflexivity]).
    right. right. right.
    match goal with
    | |- context [Registry.swapTheToken ?a ?b ?f ?t ?x w] =>
        exists (SwapTheToken a b f t x);
        split; [eapply nextU64_in_range; eassumption |];
        cbn [exec]; destruct (Registry.swapTheToken a b f t x w); reflexivity
    end.
  - right. left. eexists. reflexivity.
Qed.

Lemma consistent_after e access args w :
  consistent w -> consistent (after e access args w).
Proof.
  intros Hw.
  destruct (after_as_calls e access args w)
    as [-> | [[msg ->] | [[msg ->] | (c & Hc & ->)]]].
  - exact Hw.
  - apply consistent_emit, Hw.
  - apply run_consistent; [| apply consistent_emit, Hw].
    repeat constructor; vm_compute; discriminate.
  - apply consistent_exec; assumption.
Qed.

Lemma consistent_serve requests w : consistent w -> consistent (serve requests w).
Proof.
  revert w. induction requests as [| q requests IH]; intros w Hw.
  - exact Hw.
  - simpl. apply IH, consistent_after, Hw.
Qed.

(** X17.  Whatever sequence of exported functions is invoked, by callers
    with or without write access and with any argument buffers, from the
    empty registry: every token balance stays in [0, 2^64), every reference
    of the registry and of its pools points into the store, the reserves of
    every pool are u64 and every object carries the name it is registered
    under. *)
Theorem served_registry_stays_consistent
    (requests : list (Entry.Export * bool * Args)) :
  (forall r tok, objects (store (serve requests Registry.init)) !! r = Some tok ->
     0 <= balance tok < U64.modulus) /\
  wf_world (serve requests Registry.init) /\
  u64_world (serve requests Registry.init) /\
  named_world (serve requests Registry.init).
Proof.
  destruct (consistent_serve requests Registry.init consistent_init)
    as (Hwf & Hu64 & Hnamed).
  split; [apply Hu64 |]. split; [exact Hwf |]. split; [exact Hu64 | exact Hnamed].
Qed.

(** X18.  A caller without write access cannot change the registry: after
    any exported function invoked without write access the token map, the
    pools and the token objects are what they were, and the whole world is
    unchanged unless the function is [event], which only appends its
    message to the event sink.  The two queries, getTokenBalance and
    calculatePrice, leave the world unchanged for every caller. *)
Theorem no_write_access_no_change (e : Entry.Export) (access : bool) (args : Args)
    (w : World) :
  swapSystem (after e false args w) = swapSystem w /\
  objects (store (after e false args w)) = objects (store w) /\
  (e <> Entry.ExEvent -> after e false args w = w) /\
  after Entry.ExGetTokenBalance access args w = w /\
  after Entry.ExCalculatePrice access args w = w.
Proof.
  assert (Hcases : e = Entry.ExEvent \/ after e false args w = w).
  { destruct e; try (right; apply after_without_access; discriminate).
    left. reflexivity. }
  split; [| split; [| split]].
  - destruct Hcases as [-> | ->]; reflexivity.
  - destruct Hcases as [-> | ->]; reflexivity.
  - apply after_without_access.
  - apply after_query_unchanged.
Qed.

End EntryFacts.

Lemma reader_nextU64_in_range (a : list Reader.Arg) (n : Z) (a' : list Reader.Arg) :
  Reader.nextU64 a = Some (n, a') -> U64.in_range n.
Proof.
  destruct a as [| [s | m] rest]; simpl; try discriminate.
  destruct (Z.leb_spec 0 m) as [Hlow | Hlow], (Z.ltb_spec m U64.modulus) as [Hup | Hup];
    simpl; try discriminate.
  intros Hsome. injection Hsome as <- _. split; assumption.
Qed.

Example served_requests :
  let w := Entry.serve (list Reader.Arg) Reader.nextString Reader.nextU64
             requests Registry.init in
  Registry.getTokenBalance "TokenA" w = Returns 100 /\
  Registry.getTokenBalance "TokenB" w = Returns 599 /\
  liquidityPools (swapSystem w) !! "TokenA-TokenB" = Some (mkPool 0%nat 1%nat 400 401) /\
  events (store w) = ["Constructor called with name deployer";
                      "Swapped 100 TokenA for 199 TokenB"].
Proof. repeat split. Qed.

Example balance_reply :
  Entry.getTokenBalance (list Reader.Arg) Reader.nextString [Reader.Str "TokenB"] deployed
  = Returns (stringToBytes "400", deployed).
Proof. reflexivity. Qed.

Lemma served_registry_stays_consistent_witness :
  wf_world (Entry.serve (list Reader.Arg) Reader.nextString Reader.nextU64
              requests Registry.init) /\
  u64_world (Entry.serve (list Reader.Arg) Reader.nextString Reader.nextU64
               requests Registry.init).
Proof.
  destruct (served_registry_stays_consistent (list Reader.Arg) Reader.nextString
              Reader.nextU64 reader_nextU64_in_range requests)
    as (_ & Hwf & Hu64 & _).
  split; [exact Hwf | exact Hu64].
Defined.

Lemma no_write_access_no_change_witness :
  Entry.after (list Reader.Arg) Reader.nextString Reader.nextU64 Entry.ExSwapTokens false
    [Reader.Str "TokenA"; Reader.Str "TokenB"; Reader.Str "TokenA";
     Reader.Str "TokenB"; Reader.U64 100] deployed
  = deployed.
Proof.
  destruct (no_write_access_no_change (list Reader.Arg) Reader.nextString Reader.nextU64
              Entry.ExSwapTokens false
              [Reader.Str "TokenA"; Reader.Str "TokenB"; Reader.Str "TokenA";
               Reader.Str "TokenB"; Reader.U64 100] deployed)
    as (_ & _ & Hsame & _).
  apply Hsame. discriminate.
Defined.

Section EntryCalls.

Variable Args : Type.
Variable nextString : Args -> option (string * Args).
Variable nextU64 : Args -> option (Z * Args).

(** X19.  The constructor, invoked with write access, starts the two example
    tokens afresh whatever the registry held before: afterwards TokenA and
    TokenB both read 0, the pool TokenA-TokenB references the two new
    objects with reserves (100, 200) and its price is 0, and the event
    "Constructor called with name <name>" has been appended.  Without its
    name argument the constructor is stopped. *)
Theorem constructor_starts_afresh (args rest : Args) (deployer : string) (w : World) :
  (nextString args = None ->
   Entry.constructor Args nextString true args w = Trap) /\
  (nextString args = Some (deployer, rest) ->
   exists w',
     Entry.constructor Args nextString true args w = Returns ([], w') /\
     Registry.getTokenBalance "TokenA" w' = Returns 0 /\
     Registry.getTokenBalance "TokenB" w' = Returns 0 /\
     liquidityPools (swapSystem w') !! "TokenA-TokenB"
     = Some (mkPool (length (objects (store w))) (S (length (objects (store w))))
               100 200) /\
     Registry.calculatePrice "TokenA" "TokenB" w' = Returns 0 /\
     events (store w') = events (store w) ++ ["Constructor called with name " +:+ deployer]).
Proof.
  split.
  - intros Hnone. unfold Entry.constructor. rewrite Hnone. reflexivity.
  - intros Hname. unfold Entry.constructor. rewrite Hname.
    cbn [negb expect mbind outcome_bind fst].
    set (w0 := emit ("Constructor called with name " +:+ deployer) w).
    set (w1 := Registry.addToken "TokenA" w0).
    set (w2 := Registry.addToken "TokenB" w1).
    assert (HA : Registry.getTokenBalance "TokenA" w2 = Returns 0).
    { unfold w2. rewrite getTokenBalance_addToken_other by discriminate.
      apply getTokenBalance_addToken_same. }
    assert (HB : Registry.getTokenBalance "TokenB" w2 = Returns 0)
      by apply getTokenBalance_addToken_same.
    unfold w2, w1. rewrite addLiquidityPool_after_addToken by discriminate.
    fold w1. fold w2. cbn [mbind outcome_bind].
    eexists. split; [reflexivity |].
    split; [exact HA |]. split; [exact HB |].
    split; [apply lookup_insert_eq |].
    split; [| reflexivity].
    destruct (getTokenBalance_returns "TokenB" w2 0 HB) as (rb & Hrb & Hzero).
    assert (Hlast : rb = S (length (objects (store w)))).
    { unfold w2 in Hrb. rewrite tokens_addToken, lookup_insert_eq in Hrb.
      injection Hrb as <-. unfold w1, w0, Registry.addToken, alloc, emit. simpl.
      rewrite length_app. simpl. lia. }
    subst rb.
    rewrite (calculatePrice_resolved _ "TokenA" "TokenB"
               (mkPool (length (objects (store w))) (S (length (objects (store w))))
                  100 200))
      by (cbn [swapSystem liquidityPools]; apply lookup_insert_eq).
    unfold Pool.calculatePrice. cbn [reserveA reserveB tokenB store].
    rewrite Hzero. reflexivity.
Qed.

(** X20.  swapTokens reads its buffer in the order from, to, tokenA, tokenB,
    amount and swaps through the pool of (tokenA, tokenB).  With write
    access, in a consistent world, for two different resolved token names,
    a resolved pool, amount <= the from balance and a computed amountOut
    other than 0, it returns an empty buffer and the balance read under from
    has dropped by amount while the balance read under to has grown by
    amountOut (modulo 2^64). *)
Theorem swapTokens_entry_swaps (args a1 a2 a3 a4 a5 : Args) (f t a b : string)
    (amount out bf bt : Z) (w : World) (p : LiquidityPool) (rf rt : ref) :
  nextString args = Some (f, a1) ->
  nextString a1 = Some (t, a2) ->
  nextString a2 = Some (a, a3) ->
  nextString a3 = Some (b, a4) ->
  nextU64 a4 = Some (amount, a5) ->
  consistent w ->
  f <> t ->
  liquidityPools (swapSystem w) !! pool_key a b = Some p ->
  tokens (swapSystem w) !! f = Some rf ->
  tokens (swapSystem w) !! t = Some rt ->
  Registry.getTokenBalance f w = Returns bf ->
  Registry.getTokenBalance t w = Returns bt ->
  0 <= amount <= bf ->
  Pool.calculateSwapAmountOut p rf rt amount (store w) = Returns out ->
  out <> 0 ->
  exists w',
    Entry.swapTokens Args nextString nextU64 true args w = Returns ([], w') /\
    Registry.swapTheToken a b f t amount w = Returns w' /\
    Registry.getTokenBalance f w' = Returns (bf - amount) /\
    Registry.getTokenBalance t w' = Returns (U64.add bt out).
Proof.
  intros H1 H2 H3 H4 H5 (Hwf & [Hbal _] & Hnamed) Hft Hp Hf Ht Hbf Hbt Hamount Hout Hnz.
  apply (getTokenBalance_value w f rf bf Hf) in Hbf.
  apply (getTokenBalance_value w t rt bt Ht) in Hbt. subst bf bt.
  assert (Hne : rf <> rt) by (apply (named_distinct w f t); assumption).
  destruct Hwf as [Hrefs _].
  pose proof (Hrefs f rf Hf) as Hlf. pose proof (Hrefs t rt Ht) as Hlt.
  pose proof (balances_in_range_deref (store w) rf Hbal) as Hrange.
  assert (Hguard : (balance (deref (store w) rf) <? amount) = false)
    by (apply Z.ltb_ge; lia).
  pose proof (swapTheToken_success w a b f t amount p rf rt out Hp Hf Ht Hguard Hout Hnz)
    as Hswap.
  eexists. split; [| split; [exact Hswap |]].
  - unfold Entry.swapTokens. rewrite H1. cbn [negb expect mbind outcome_bind fst snd].
    rewrite H2. cbn [expect mbind outcome_bind fst snd].
    rewrite H3. cbn [expect mbind outcome_bind fst snd].
    rewrite H4. cbn [expect mbind outcome_bind fst snd].
    rewrite H5. cbn [expect mbind outcome_bind fst snd].
    rewrite Hswap. reflexivity.
  - rewrite (getTokenBalance_resolved _ f rf) by exact Hf.
    rewrite (getTokenBalance_resolved _ t rt) by exact Ht.
    cbn [swapSystem tokens store].
    rewrite !deref_generateEvent.
    rewrite (deref_credit_ne rt rf) by congruence.
    rewrite balance_debit_eq by assumption.
    rewrite balance_credit_eq by (rewrite length_debit; assumption).
    rewrite deref_debit_ne by assumption.
    rewrite sub_exact by (try assumption; lia).
    split; reflexivity.
Qed.

(** X21.  The two queries never change the world and reply with decimal
    text.  getTokenBalance answers with the digits of the balance of the
    token registered under the name, and is stopped when the name is not
    registered; calculatePrice answers with the digits of the price of the
    pool registered for the pair, and is stopped when the pair has no pool.
    A query without its name argument is stopped. *)
Theorem query_replies (args a1 a2 : Args) (n a b : string) (w : World) :
  (nextString args = None ->
   Entry.getTokenBalance Args nextString args w = Trap /\
   Entry.calculatePrice Args nextString args w = Trap) /\
  (nextString args = Some (n, a1) ->
   (forall r, tokens (swapSystem w) !! n = Some r ->
      Entry.getTokenBalance Args nextString args w
      = Returns (stringToBytes (pretty (balance (deref (store w) r))), w)) /\
   (tokens (swapSystem w) !! n = None ->
    Entry.getTokenBalance Args nextString args w = Trap)) /\
  (nextString args = Some (a, a1) ->
   nextString a1 = Some (b, a2) ->
   (forall p price,
      liquidityPools (swapSystem w) !! pool_key a b = Some p ->
      Pool.calculatePrice p (store w) = Returns price ->
      Entry.calculatePrice Args nextString args w
      = Returns (stringToBytes (pretty price), w)) /\
   (liquidityPools (swapSystem w) !! pool_key a b = None ->
    Entry.calculatePrice Args nextString args w = Trap)).
Proof.
  unfold Entry.getTokenBalance, Entry.calculatePrice.
  split; [| split].
  - intros ->. split; reflexivity.
  - intros ->. cbn [expect mbind outcome_bind fst snd]. split.
    + intros r Hn. rewrite (getTokenBalance_resolved w n r Hn). reflexivity.
    + intros Hn. rewrite (getTokenBalance_unresolved w n Hn). reflexivity.
  - intros -> Hb. cbn [expect mbind outcome_bind fst snd]. rewrite Hb.
    cbn [expect mbind outcome_bind fst snd]. split.
    + intros p price Hk Hprice.
      rewrite (calculatePrice_resolved w a b p Hk), Hprice. reflexivity.
    + intros Hk. rewrite (calculatePrice_unresolved w a b Hk). reflexivity.
Qed.

End EntryCalls.

Lemma constructor_starts_afresh_witness :
  exists w',
    Entry.constructor (list Reader.Arg) Reader.nextString true [Reader.Str "again"] deployed
    = Returns ([], w') /\
    Registry.getTokenBalance "TokenA" w' = Returns 0 /\
    Registry.getTokenBalance "TokenB" w' = Returns 0 /\
    liquidityPools (swapSystem w') !! "TokenA-TokenB"
    = Some (mkPool (length (objects (store deployed)))
              (S (length (objects (store deployed)))) 100 200) /\
    Registry.calculatePrice "TokenA" "TokenB" w' = Returns 0 /\
    events (store w') = events (store deployed) ++ ["Constructor called with name " +:+ "again"].
Proof.
  apply (constructor_starts_afresh (list Reader.Arg) Reader.nextString
           [Reader.Str "again"] [] "again" deployed).
  reflexivity.
Defined.

Lemma deployed_consistent : consistent deployed.
Proof.
  apply (consistent_serve (list Reader.Arg) Reader.nextString Reader.nextU64
           reader_nextU64_in_range), consistent_init.
Qed.

Lemma swapTokens_entry_swaps_witness :
  exists w',
    Entry.swapTokens (list Reader.Arg) Reader.nextString Reader.nextU64 true
      [Reader.Str "TokenA"; Reader.Str "TokenB"; Reader.Str "TokenA";
       Reader.Str "TokenB"; Reader.U64 100] deployed
    = Returns ([], w') /\
    Registry.swapTheToken "TokenA" "TokenB" "TokenA" "TokenB" 100 deployed = Returns w' /\
    Registry.getTokenBalance "TokenA" w' = Returns (200 - 100) /\
    Registry.getTokenBalance "TokenB" w' = Returns (U64.add 400 199).
Proof.
  eapply (swapTokens_entry_swaps (list Reader.Arg) Reader.nextString Reader.nextU64
            _ _ _ _ _ _ "TokenA" "TokenB" "TokenA" "TokenB" 100 199 200 400 deployed
            (mkPool 0%nat 1%nat 300 600) 0%nat 1%nat).
  - reflexivity.
  - reflexivity.
  - reflexivity.
  - reflexivity.
  - reflexivity.
  - apply deployed_consistent.
  - discriminate.
  - reflexivity.
  - reflexivity.
  - reflexivity.
  - reflexivity.
  - reflexivity.
  - vm_compute. split; discriminate.
  - reflexivity.
  - discriminate.
Defined.

Lemma query_replies_witness :
  Entry.getTokenBalance (list Reader.Arg) Reader.nextString [] deployed = Trap /\
  Entry.getTokenBalance (list Reader.Arg) Reader.nextString [Reader.Str "TokenB"] deployed
  = Returns (stringToBytes "400", deployed) /\
  Entry.getTokenBalance (list Reader.Arg) Reader.nextString [Reader.Str "TokenC"] deployed
  = Trap /\
  Entry.calculatePrice (list Reader.Arg) Reader.nextString
    [Reader.Str "TokenA"; Reader.Str "TokenB"] deployed
  = Returns (stringToBytes "200", deployed) /\
  Entry.calculatePrice (list Reader.Arg) Reader.nextString
    [Reader.Str "TokenB"; Reader.Str "TokenA"] deployed
  = Trap.
Proof.
  destruct (query_replies (list Reader.Arg) Reader.nextString [] [] [] "" "" "" deployed)
    as (Hmissing & _ & _).
  destruct (query_replies (list Reader.Arg) Reader.nextString [Reader.Str "TokenB"] [] []
              "TokenB" "" "" deployed) as (_ & Hknown & _).
  destruct (query_replies (list Reader.Arg) Reader.nextString [Reader.Str "TokenC"] [] []
              "TokenC" "" "" deployed) as (_ & Hunknown & _).
  destruct (query_replies (list Reader.Arg) Reader.nextString
              [Reader.Str "TokenA"; Reader.Str "TokenB"] [Reader.Str "TokenB"] []
              "" "TokenA" "TokenB" deployed) as (_ & _ & Hpriced).
  destruct (query_replies (list Reader.Arg) Reader.nextString
              [Reader.Str "TokenB"; Reader.Str "TokenA"] [Reader.Str "TokenA"] []
              "" "TokenB" "TokenA" deployed) as (_ & _ & Hunpriced).
  split; [apply Hmissing; reflexivity |].
  split; [apply (proj1 (Hknown eq_refl) 1%nat); reflexivity |].
  split; [apply (proj2 (Hunknown eq_refl)); reflexivity |].
  split.
  - apply (proj1 (Hpriced eq_refl eq_refl) (mkPool 0%nat 1%nat 300 600) 200); reflexivity.
  - apply (proj2 (Hunpriced eq_refl eq_refl)). reflexivity.
Defined.

(** * Refused swaps and unregistered names *)

(** X22.  A swap that the pool refuses is a silent no-op.  At the pool,
    when fromToken.balance < amount or when the computed amountOut is 0,
    swapTokens returns with the pool and the store (balances and event
    sink) as they were.  At the registry, when the pool key and both token
    names are registered and the pool refuses the swap for one of those two
    reasons, swapTheToken returns with the whole world unchanged: every
    balance, every reserve, both maps and the event sink. *)
Theorem refused_swap_is_silent (w : World) (this p : LiquidityPool)
    (fromToken toToken rf rt : ref) (st : Store) (a b f t : string) (amount : Z) :
  (balance (deref st fromToken) < amount \/
   Pool.calculateSwapAmountOut this fromToken toToken amount st = Returns 0 ->
   Pool.swapTokens this fromToken toToken amount st = Returns (this, st)) /\
  (liquidityPools (swapSystem w) !! pool_key a b = Some p ->
   tokens (swapSystem w) !! f = Some rf ->
   tokens (swapSystem w) !! t = Some rt ->
   balance (deref (store w) rf) < amount \/
   Pool.calculateSwapAmountOut p rf rt amount (store w) = Returns 0 ->
   Registry.swapTheToken a b f t amount w = Returns w).
Proof.
  split.
  - intros [Hlt | Hout].
    + apply swapTokens_insufficient, Hlt.
    + apply swapTokens_zero_output, Hout.
  - intros Hp Hf Ht Hwhy.
    apply (swapTheToken_refused w a b f t amount p rf rt); try assumption.
    destruct Hwhy as [Hlt | Hout].
    + apply swapTokens_insufficient, Hlt.
    + apply swapTokens_zero_output, Hout.
Qed.

Lemma refused_swap_is_silent_witness :
  Pool.swapTokens (mkPool 0%nat 1%nat 100 200) 0%nat 1%nat 500 (store funded)
  = Returns (mkPool 0%nat 1%nat 100 200, store funded) /\
  Registry.swapTheToken "A" "B" "A" "B" 500 funded = Returns funded.
Proof.
  destruct (refused_swap_is_silent funded (mkPool 0%nat 1%nat 100 200)
              (mkPool 0%nat 1%nat 100 200) 0%nat 1%nat 0%nat 1%nat
              (store funded) "A" "B" "A" "B" 500) as [Hpool Hregistry].
  split.
  - apply Hpool. left. reflexivity.
  - apply Hregistry; try reflexivity. left. reflexivity.
Defined.


